(** * PapaDuck: store-and-forward bridge from the duck mesh to MQTT

    A shallow embedding of [examples/1.Ducks/PapaDuck/PapaDuck.ino].

    The sketch keeps its state in globals (the retention queue
    [packetQueue], its bound [QUEUE_SIZE_MAX], [use_auth_method], the
    shared [retry] flag and the software [timer]) and talks to three
    collaborators: the MQTT
    client ([client.connected], [client.connect], [client.publish]), the
    duck SDK ([duck.isWifiConnected], [duck.reconnectWifi], [duck.run],
    which invokes the receive callback) and the millisecond clock read
    by the timer.  The globals are fields of [State]; every answer of a
    collaborator is an explicit argument of the function that asks for it,
    and every call that leaves the device is appended to [trace].

    Diagnostics ([Serial.print*], the OLED [display]) are write-only and
    never read back by the sketch; they are not part of the model. *)

From Stdlib Require Import ZArith NArith String Ascii DecimalString List Bool Lia.
From Stdlib Require Import Init.Byte.
Import ListNotations.

Local Open Scope string_scope.
Local Open Scope list_scope.
Local Open Scope Z_scope.

Set Implicit Arguments.

(** ** Data *)

(** [std::vector<byte>]: a raw frame as delivered by the mesh stack. *)
Definition RawPacket := list byte.

(** The fields of [CdpPacket] that the sketch reads. *)
Record CdpPacket := mkCdpPacket {
  sduid : list byte;
  dduid : list byte;
  muid : list byte;
  topic : byte;
  path : list byte;
  duckType : byte;
  hopCount : byte;
  data : list byte
}.

(** A value stored in the [StaticJsonDocument]: the sketch stores
    [std::string]s and bytes (as numbers); a member whose value could not
    be stored is null. *)
Inductive JsonValue :=
| JNull
| JString (s : string)
| JNumber (n : Z).

(** The members of the document's root object, in insertion order: what
    [serializeJson] writes. *)
Definition JsonDocument := list (string * JsonValue).

(** The value of the member [key] is replaced when the key is present; the
    member is added at the end otherwise. *)
Fixpoint json_set (key : string) (v : JsonValue) (doc : JsonDocument)
  : JsonDocument :=
  match doc with
  | [] => [(key, v)]
  | (k, w) :: rest =>
      if String.eqb k key then (k, v) :: rest
      else (k, w) :: json_set key v rest
  end.

Fixpoint json_get (key : string) (doc : JsonDocument) : option JsonValue :=
  match doc with
  | [] => None
  | (k, w) :: rest => if String.eqb k key then Some w else json_get key rest
  end.

(** What the CDP headers and the JSON library provide.  [PapaDuck.h],
    [CdpPacket.h] and [ArduinoJson.h] are included by the sketch but are
    not part of it: the enumerators of [topics], [DUCK_ERR_NONE], the
    [CdpPacket(buffer)] constructor and [serializeJson] are taken as
    parameters.  The constructor has no failure result in the sketch
    ([CdpPacket packet = CdpPacket(packetBuffer);] is used
    unconditionally), so it is a total function here.  Two build constants
    of ArduinoJson decide how much a [StaticJsonDocument] holds: the size
    of one slot of its pool ([sizeof(VariantSlot)], 16 on the 32-bit
    target) and whether equal strings share one copy
    ([ARDUINOJSON_ENABLE_STRING_DEDUPLICATION]). *)
Class Headers := {
  topics_status : byte;
  topics_cpm : byte;
  topics_sensor : byte;
  topics_alert : byte;
  topics_location : byte;
  topics_health : byte;
  DUCK_ERR_NONE : Z;
  CdpPacket_of : RawPacket -> CdpPacket;
  serializeJson : JsonDocument -> string;
  sizeof_VariantSlot : Z;
  string_deduplication : bool
}.

(** ** The retention queue: [std::queue<std::vector<byte>>]

    The front (oldest element) is the head of the list. *)
Module Queue.

Definition t := list RawPacket.

Definition size (q : t) : Z := Z.of_nat (length q).

Definition empty (q : t) : bool :=
  match q with [] => true | _ :: _ => false end.

Definition front (q : t) : option RawPacket := hd_error q.

Definition push (p : RawPacket) (q : t) : t := q ++ [p].

(** [pop] on an empty queue is undefined in C++; the sketch only pops after
    it has seen a non-zero size.  The model leaves an empty queue empty. *)
Definition pop (q : t) : t := tl q.

End Queue.

(** ** The software timer ([arduino-timer], [timer_create_default()])

    The sketch only uses [timer.in(delay, enableRetry)] and
    [timer.tick()].  A task records the clock reading at which it was
    armed and its delay; it is due once [delay] milliseconds have passed,
    runs its handler once and is removed (a task created by [in] does not
    repeat).  The only handler ever registered is [enableRetry].  Clock
    readings are kept as unbounded integers: the 32-bit wrap of [millis()]
    after 49 days is outside the model. *)
Record Task := mkTask {
  start : Z;
  expires : Z
}.

(** ** Observable calls *)
Inductive Event :=
| Publish (topic_name payload : string) (ok : bool)
| MqttConnect (use_auth ok : bool)
| WifiReconnect (err : Z).

(** ** Program state *)
Record State := mkState {
  QUEUE_SIZE_MAX : Z;             (* int QUEUE_SIZE_MAX = 5; *)
  use_auth_method : bool;         (* bool use_auth_method = true; *)
  packetQueue : Queue.t;
  retry : bool;                   (* bool retry = true; *)
  timer : list Task;
  clock : Z;                      (* milliseconds since boot *)
  trace : list (Z * Event)        (* oldest first, stamped with [clock] *)
}.

Definition set_packetQueue (q : Queue.t) (s : State) : State :=
  mkState (QUEUE_SIZE_MAX s) (use_auth_method s) q (retry s) (timer s)
          (clock s) (trace s).

Definition set_retry (b : bool) (s : State) : State :=
  mkState (QUEUE_SIZE_MAX s) (use_auth_method s) (packetQueue s) b (timer s)
          (clock s) (trace s).

Definition set_timer (t : list Task) (s : State) : State :=
  mkState (QUEUE_SIZE_MAX s) (use_auth_method s) (packetQueue s) (retry s) t
          (clock s) (trace s).

Definition set_clock (c : Z) (s : State) : State :=
  mkState (QUEUE_SIZE_MAX s) (use_auth_method s) (packetQueue s) (retry s)
          (timer s) c (trace s).

Definition emit (e : Event) (s : State) : State :=
  mkState (QUEUE_SIZE_MAX s) (use_auth_method s) (packetQueue s) (retry s)
          (timer s) (clock s) (trace s ++ [(clock s, e)]).

(** Time passing outside the sketch's control. *)
Definition advance (dt : N) (s : State) : State :=
  set_clock (clock s + Z.of_N dt) s.

(** The state after static initialisation, with the queue bound as
    written in the source, and with another value in its place. *)
Definition configured (n : Z) : State :=
  mkState n true [] true [] 0 [].

Definition initial_state : State := configured 5.

(** [size_t] is a 32-bit unsigned type on the target; comparing it with an
    [int] converts the [int] to it. *)
Definition to_size_t (n : Z) : Z := n mod 2 ^ 32.

Section Sketch.

Context {hdrs : Headers}.

(** ** [toTopicString] *)
Definition toTopicString (t : byte) : string :=
  if Byte.eqb t topics_status then "status"
  else if Byte.eqb t topics_cpm then "portal"
  else if Byte.eqb t topics_sensor then "sensor"
  else if Byte.eqb t topics_alert then "alert"
  else if Byte.eqb t topics_location then "gps"
  else if Byte.eqb t topics_health then "health"
  else "status".

(** ** [quackJson] *)

Definition byte_number (b : byte) : JsonValue := JNumber (Z.of_N (Byte.to_N b)).

(** *** The document: [StaticJsonDocument<bufferSize> doc] (lines 144-145)

    The document owns a pool of [capacity] bytes.  Every member of the
    root object takes one slot of the pool (its key, a string literal, is
    kept by address; a number is kept inside the slot), and every
    [std::string] value is copied into the pool with its terminating zero.
    An allocation succeeds when the bytes in use plus the bytes asked for
    do not exceed the capacity. *)

(** [JSON_OBJECT_SIZE(n)]: the bytes of an object of [n] members. *)
Definition JSON_OBJECT_SIZE (n : Z) : Z := n * sizeof_VariantSlot.

Record StaticJsonDocument := mkStaticJsonDocument {
  capacity : Z;
  root : JsonDocument;
  pool_strings : list string;     (* the copies held in the pool *)
  pool_slots : Z                  (* the slots taken *)
}.

Definition empty_document (bytes : Z) : StaticJsonDocument :=
  mkStaticJsonDocument bytes [] [] 0.

Definition string_bytes (s : string) : Z := Z.of_nat (String.length s) + 1.

Definition pool_used (d : StaticJsonDocument) : Z :=
  fold_right (fun s used => string_bytes s + used) 0 (pool_strings d)
  + pool_slots d * sizeof_VariantSlot.

Definition canAlloc (d : StaticJsonDocument) (bytes : Z) : bool :=
  pool_used d + bytes <=? capacity d.

(** [doc[key]] on the way to an assignment: the member is looked up and,
    when it is missing, added with a null value if a slot can be had. *)
Definition addMember (key : string) (d : StaticJsonDocument)
  : option StaticJsonDocument :=
  match json_get key (root d) with
  | Some _ => Some d
  | None =>
      if canAlloc d sizeof_VariantSlot then
        Some (mkStaticJsonDocument (capacity d) (root d ++ [(key, JNull)])
                (pool_strings d) (pool_slots d + 1))
      else None
  end.

(** The copy of a string value: an equal string already in the pool is
    shared when the library deduplicates; otherwise the bytes are taken
    from the pool, if they can be had. *)
Definition saveString (s : string) (d : StaticJsonDocument)
  : option StaticJsonDocument :=
  if string_deduplication && existsb (String.eqb s) (pool_strings d) then
    Some d
  else if canAlloc d (string_bytes s) then
    Some (mkStaticJsonDocument (capacity d) (root d) (s :: pool_strings d)
            (pool_slots d))
  else None.

Definition set_root (r : JsonDocument) (d : StaticJsonDocument)
  : StaticJsonDocument :=
  mkStaticJsonDocument (capacity d) r (pool_strings d) (pool_slots d).

(** [doc[key] = v] and [doc[key].set(v)]: nothing happens when the member
    cannot be added; a string that cannot be copied leaves the member
    null. *)
Definition doc_set (key : string) (v : JsonValue) (d : StaticJsonDocument)
  : StaticJsonDocument :=
  match addMember key d with
  | None => d
  | Some d =>
      match v with
      | JString s =>
          match saveString s d with
          | Some d => set_root (json_set key (JString s) (root d)) d
          | None => set_root (json_set key JNull (root d)) d
          end
      | _ => set_root (json_set key v (root d)) d
      end
  end.

(** Lines 144-145 and 170-175: the document built from the decoded
    packet, as [serializeJson] then reads it. *)
Definition quackJson_doc (packet : CdpPacket) : JsonDocument :=
  let bufferSize := 4 * JSON_OBJECT_SIZE 4 in
  let doc := empty_document bufferSize in
  let payload := string_of_list_byte (data packet) in
  let sduid_s := string_of_list_byte (sduid packet) in
  let muid_s := string_of_list_byte (muid packet) in
  let path_s := string_of_list_byte (path packet) in
  let doc := doc_set "DeviceID" (JString sduid_s) doc in
  let doc := doc_set "MessageID" (JString muid_s) doc in
  let doc := doc_set "Payload" (JString payload) doc in
  let doc := doc_set "path" (JString path_s) doc in
  let doc := doc_set "hops" (byte_number (hopCount packet)) doc in
  let doc := doc_set "duckType" (byte_number (duckType packet)) doc in
  root doc.

(** Lines 177 and 186. *)
Definition quackJson_topic (packet : CdpPacket) : string :=
  let cdpTopic := toTopicString (topic packet) in
  ("iot-2/evt/" ++ cdpTopic ++ "/fmt/json")%string.

(** [published] is the answer of [client.publish(topic, jsonstat)]. *)
Definition quackJson (published : bool) (packetBuffer : RawPacket) (s : State)
  : Z * State :=
  let packet := CdpPacket_of packetBuffer in
  let doc := quackJson_doc packet in
  let topic_s := quackJson_topic packet in
  let jsonstat := serializeJson doc in
  let s := emit (Publish topic_s jsonstat published) s in
  if published then (0, s) else (-1, s).

(** ** [handleDuckData] *)
Definition handleDuckData (published : bool) (packetBuffer : RawPacket)
  (s : State) : State :=
  let '(r, s) := quackJson published packetBuffer s in
  if r =? -1 then
    if Queue.size (packetQueue s) >? to_size_t (QUEUE_SIZE_MAX s) then
      let s := set_packetQueue (Queue.pop (packetQueue s)) s in
      set_packetQueue (Queue.push packetBuffer (packetQueue s)) s
    else
      set_packetQueue (Queue.push packetBuffer (packetQueue s)) s
  else s.

(** ** The timer and the [retry] flag *)

(** [timer.in(delay, enableRetry)]: the task is stamped with the current
    clock reading. *)
Definition timer_in (delay : Z) (s : State) : State :=
  set_timer (timer s ++ [mkTask (clock s) delay]) s.

(** [enableRetry], the only timer handler: sets the flag and returns it. *)
Definition enableRetry (s : State) : bool * State :=
  let s := set_retry true s in
  (retry s, s).

Definition due (now : Z) (t : Task) : bool := now - start t >=? expires t.

(** The handler calls made by one [timer.tick()]. *)
Fixpoint run_due (now : Z) (tasks : list Task) (s : State) : State :=
  match tasks with
  | [] => s
  | t :: rest =>
      if due now t then run_due now rest (snd (enableRetry s))
      else run_due now rest s
  end.

(** [timer.tick()]: every due task runs its handler and is removed. *)
Definition timer_tick (s : State) : State :=
  let now := clock s in
  let pending := filter (fun t => negb (due now t)) (timer s) in
  set_timer pending (run_due now (timer s) s).

(** [retry_mqtt_connection] *)
Definition retry_mqtt_connection (delay_ms : Z) (s : State) : State :=
  let s := set_retry false s in
  timer_in delay_ms s.

(** ** [publishQueue] *)

(** One turn of the [while] loop, entered with a non-empty queue whose
    front is [p]; the flag tells whether the loop goes on. *)
Definition publishQueue_body (published : bool) (p : RawPacket) (s : State)
  : bool * State :=
  let '(r, s) := quackJson published p s in
  if r =? 0 then (true, set_packetQueue (Queue.pop (packetQueue s)) s)
  else (false, s).

(** [published j] is the answer of [client.publish] to the [j]-th call of
    this pass; [i] counts the calls made so far.  The loop is cut off
    after [fuel] turns ([publishQueue_returns]: never, with the fuel that
    [publishQueue] gives it). *)
Fixpoint publishQueue_loop (fuel : nat) (published : nat -> bool) (i : nat)
  (s : State) : option State :=
  match fuel with
  | O => None
  | S fuel =>
      if Queue.empty (packetQueue s) then Some s
      else
        match Queue.front (packetQueue s) with
        | None => Some s            (* not reached: the queue is not empty *)
        | Some p =>
            let '(continue, s) := publishQueue_body (published i) p s in
            if continue then publishQueue_loop fuel published (S i) s
            else Some s
        end
  end.

Definition publishQueue (published : nat -> bool) (s : State) : option State :=
  publishQueue_loop (S (length (packetQueue s))) published 0%nat s.

(** ** [setup_mqtt] *)

(** The answers of the MQTT client during one call of [setup_mqtt]. *)
Record MqttAnswers := mkMqttAnswers {
  client_connected : bool;        (* client.connected() *)
  connect_took : N;               (* duration of client.connect(...) *)
  connect_ok : bool;              (* its result *)
  publish_ok : nat -> bool        (* client.publish, call by call *)
}.

Definition setup_mqtt (m : MqttAnswers) (use_auth : bool) (s : State)
  : option State :=
  if client_connected m then
    if Queue.size (packetQueue s) >? 0 then publishQueue (publish_ok m) s
    else Some s
  else
    let s := emit (MqttConnect use_auth (connect_ok m)) s in
    let s := advance (connect_took m) s in
    if connect_ok m then
      if Queue.size (packetQueue s) >? 0 then publishQueue (publish_ok m) s
      else Some s
    else Some (retry_mqtt_connection 1000 s).

(** ** [loop] *)

(** What the collaborators do during one pass of [loop]. *)
Record Tick := mkTick {
  idle : N;                           (* time since the previous pass *)
  wifi_before : bool;                 (* duck.isWifiConnected(), line 261 *)
  reconnect_took : N;                 (* duration of duck.reconnectWifi *)
  reconnect_err : Z;                  (* its result *)
  wifi_after : bool;                  (* duck.isWifiConnected(), line 275 *)
  mqtt : MqttAnswers;
  received : list (RawPacket * bool); (* duck.run(): frames handed to the
                                         callback, with the answer of
                                         client.publish for each *)
  busy : N                            (* duration of duck.run() *)
}.

(** Lines 261-274. *)
Definition loop_wifi (e : Tick) (s : State) : State :=
  if negb (wifi_before e) && retry s then
    let s := emit (WifiReconnect (reconnect_err e)) s in
    let s := advance (reconnect_took e) s in
    if negb (reconnect_err e =? DUCK_ERR_NONE) then
      let s := set_retry false s in
      timer_in 5000 s
    else s
  else s.

(** Lines 275-277. *)
Definition loop_mqtt (e : Tick) (s : State) : option State :=
  if wifi_after e && retry s then setup_mqtt (mqtt e) (use_auth_method s) s
  else Some s.

(** [duck.run()] invokes the registered callback [handleDuckData] once per
    received frame, in order, before it returns. *)
Definition duck_run (frames : list (RawPacket * bool)) (s : State) : State :=
  fold_left (fun s f => handleDuckData (snd f) (fst f) s) frames s.

Definition loop (e : Tick) (s : State) : option State :=
  let s := advance (idle e) s in
  let s := loop_wifi e s in
  match loop_mqtt e s with
  | None => None
  | Some s =>
      let s := duck_run (received e) s in
      let s := advance (busy e) s in
      Some (timer_tick s)
  end.

(** Successive passes of [loop]. *)
Fixpoint run (es : list Tick) (s : State) : option State :=
  match es with
  | [] => Some s
  | e :: es =>
      match loop e s with
      | None => None
      | Some s => run es s
      end
  end.

(** ** Observation points

    The program can be observed between any two of the following actions;
    a pass of [loop] is a sequence of them. *)
Inductive step : State -> State -> Prop :=
| step_advance dt s : step s (advance dt s)
| step_wifi e s : step s (loop_wifi e s)
| step_mqtt e s s' : loop_mqtt e s = Some s' -> step s s'
| step_drain ok p q s :
    packetQueue s = p :: q -> step s (snd (publishQueue_body ok p s))
| step_packet ok p s : step s (handleDuckData ok p s)
| step_timer s : step s (timer_tick s).

Inductive steps : State -> State -> Prop :=
| steps_refl s : steps s s
| steps_step s1 s2 s3 : steps s1 s2 -> step s2 s3 -> steps s1 s3.

Definition reachable_from (s0 s : State) : Prop := steps s0 s.

End Sketch.

(** ** [convertToHex]

    The sketch prints every received frame in hexadecimal (line 210).  The
    buffer [data] is the pointed-to array and [size] the [int] passed with
    it; reading [data[i]] beyond the array is undefined in C++ and is the
    failure of the model. *)

(** [const char* cs = "0123456789ABCDEF";] and [cs[k]]. *)
Definition cs : string := "0123456789ABCDEF".

Definition cs_at (k : Z) : ascii :=
  match String.get (Z.to_nat k) cs with
  | Some c => c
  | None => Ascii.zero
  end.

(** [buf += c] *)
Definition append_char (buf : string) (c : ascii) : string :=
  (buf ++ String c EmptyString)%string.

(** The body of the [for] loop for [val = data[i]]. *)
Definition convertToHex_body (val : byte) (buf : string) : string :=
  let v := Z.of_N (Byte.to_N val) in
  let buf := append_char buf (cs_at (Z.land (Z.shiftr v 4) 15)) in
  append_char buf (cs_at (Z.land v 15)).

(** [n] more turns of the loop, the next one at index [i]. *)
Fixpoint convertToHex_loop (data : list byte) (n i : nat) (buf : string)
  : option string :=
  match n with
  | O => Some buf
  | S n =>
      match nth_error data i with
      | None => None
      | Some val => convertToHex_loop data n (S i) (convertToHex_body val buf)
      end
  end.

(** [for (int i = 0; i < size; i++)]: [size] turns, none when [size <= 0]. *)
Definition convertToHex (data : list byte) (size : Z) : option string :=
  convertToHex_loop data (Z.to_nat size) 0 EmptyString.


(** ** A concrete instance of the headers

    Sample values for running the model on explicit inputs: six distinct
    topic codes, a decoder that cuts the frame at fixed offsets (missing
    bytes read as nothing or zero), a plain JSON writer and the pool
    constants of the 32-bit target.  The general
    theorems below hold for every instance of [Headers]. *)
Definition slice (from to : nat) (b : list byte) : list byte :=
  firstn (to - from) (skipn from b).

Definition example_decoder (b : RawPacket) : CdpPacket :=
  {| sduid := slice 0 8 b;
     dduid := slice 8 16 b;
     muid := slice 16 20 b;
     topic := nth 20 b x00;
     path := [];
     duckType := nth 22 b x00;
     hopCount := nth 23 b x00;
     data := skipn 28 b |}.

Definition dquote : string := String (ascii_of_nat 34) EmptyString.

Definition example_value (v : JsonValue) : string :=
  match v with
  | JNull => "null"
  | JString s => (dquote ++ s ++ dquote)%string
  | JNumber n => NilZero.string_of_int (Z.to_int n)
  end.

Fixpoint example_members (doc : JsonDocument) : string :=
  match doc with
  | [] => EmptyString
  | [(k, v)] => (dquote ++ k ++ dquote ++ ":" ++ example_value v)%string
  | (k, v) :: rest =>
      (dquote ++ k ++ dquote ++ ":" ++ example_value v ++ ","
         ++ example_members rest)%string
  end.

Definition example_headers : Headers :=
  {| topics_status := x10;
     topics_cpm := x11;
     topics_sensor := x12;
     topics_alert := x13;
     topics_location := x14;
     topics_health := x15;
     DUCK_ERR_NONE := 0;
     CdpPacket_of := example_decoder;
     serializeJson := fun doc => ("{" ++ example_members doc ++ "}")%string;
     sizeof_VariantSlot := 16;
     string_deduplication := true |}.

(** ** Concrete inputs *)

Definition six_frames : list RawPacket :=
  [[x01]; [x02]; [x03]; [x04]; [x05]; [x06]].

(** A frame of three bytes: shorter than any CDP header. *)
Definition short_frame : RawPacket := [x01; x02; x03].

(** Three frames waiting in the queue. *)
Definition three_queued : State :=
  set_packetQueue [[x01]; [x02]; [x03]] initial_state.

(** The client is not connected and refuses the connection. *)
Definition mqtt_refuses : MqttAnswers :=
  mkMqttAnswers false 0 false (fun _ => false).

(** The client is not connected and accepts the connection. *)
Definition mqtt_accepts : MqttAnswers :=
  mkMqttAnswers false 0 true (fun _ => true).

(** The network is up, the broker refuses, nothing is received. *)
Definition tick_mqtt_fails : Tick :=
  mkTick 0 true 0 0 true mqtt_refuses [] 0.

(** One second later; the network has gone, nothing is received. *)
Definition tick_network_gone : Tick :=
  mkTick 1000 false 0 (-1) false mqtt_accepts [] 0.

(** Five seconds later, the network still cannot be joined. *)
Definition tick_network_still_gone : Tick :=
  mkTick 5000 false 0 (-1) false mqtt_accepts [] 0.

(** Ten milliseconds later the network is found down and can be rejoined
    at once; the broker would accept. *)
Definition tick_network_back : Tick :=
  mkTick 10 false 0 0 true mqtt_accepts [] 0.

(** The network cannot be joined. *)
Definition tick_wifi_fails : Tick :=
  mkTick 0 false 0 (-1) false mqtt_accepts [] 0.

(** Ten milliseconds later the network is up by itself; the broker would
    accept. *)
Definition tick_network_up : Tick :=
  mkTick 10 true 0 0 true mqtt_accepts [] 0.


(** Three frames, the second of which is published at once. *)
Definition mixed_batch : list (RawPacket * bool) :=
  [([x01], false); ([x02], true); ([x03], false)].

(** The client is connected and every publish succeeds. *)
Definition mqtt_connected_ok : MqttAnswers :=
  mkMqttAnswers true 0 true (fun _ => true).


(** Three frames are queued when a reconnect fails, and the state at the
    end of the pass five seconds later. *)
Definition waiting_with_three : State :=
  loop_wifi (hdrs := example_headers) tick_wifi_fails three_queued.

Definition wait_over : State :=
  timer_tick
    (advance 0
       (duck_run (hdrs := example_headers) [] (advance 5000 waiting_with_three))).


(** Frames of a 28-byte header and a payload of 12, 147 and 200 bytes. *)
Definition fitting_frame : RawPacket := repeat x41 40.

Definition mid_frame : RawPacket := repeat x41 175.

Definition long_frame : RawPacket := repeat x41 228.


(** ** Vocabulary of the statements *)

Section Vocabulary.

Context {hdrs : Headers}.

(** The call [client.publish(topic, jsonstat)] that [quackJson] makes for
    the frame [p], with its answer. *)
Definition publish_of (ok : bool) (p : RawPacket) : Event :=
  let packet := CdpPacket_of p in
  Publish (quackJson_topic packet) (serializeJson (quackJson_doc packet)) ok.

Definition is_MqttConnect (e : Z * Event) : bool :=
  match snd e with MqttConnect _ _ => true | _ => false end.

Definition is_WifiReconnect (e : Z * Event) : bool :=
  match snd e with WifiReconnect _ => true | _ => false end.

Definition is_Publish (e : Z * Event) : bool :=
  match snd e with Publish _ _ _ => true | _ => false end.

(** Number of [client.connect] calls in a piece of trace. *)
Definition connect_attempts (tr : list (Z * Event)) : nat :=
  length (filter is_MqttConnect tr).

(** Number of [duck.reconnectWifi] calls in a piece of trace. *)
Definition wifi_attempts (tr : list (Z * Event)) : nat :=
  length (filter is_WifiReconnect tr).

(** The events of [s'] that were not yet in [s]. *)
Definition events_since (s s' : State) : list (Z * Event) :=
  skipn (length (trace s)) (trace s').

(** The six topic codes and the six route names of [toTopicString]. *)
Definition known_topics : list byte :=
  [topics_status; topics_cpm; topics_sensor; topics_alert; topics_location;
   topics_health].

Definition route_names : list string :=
  ["status"; "portal"; "sensor"; "alert"; "gps"; "health"].

Definition message_keys : list string :=
  ["DeviceID"; "MessageID"; "Payload"; "path"; "hops"; "duckType"].

(** The bound that the comparison in [handleDuckData] maintains. *)
Definition queue_bounded (s : State) : Prop :=
  Queue.size (packetQueue s) <= to_size_t (QUEUE_SIZE_MAX s) + 1.

(** Frames whose publish attempt fails, as [duck.run()] hands them over. *)
Definition failing (ps : list RawPacket) : list (RawPacket * bool) :=
  map (fun p => (p, false)) ps.

(** The last [n] elements of a list (all of it when it is shorter). *)
Definition keep_last (A : Type) (n : nat) (l : list A) : list A :=
  skipn (length l - n) l.

(** How far one pass of [publishQueue] gets through the queue [q]: the
    number of leading frames whose publish succeeds, and the publish calls
    made (one more than that number when an attempt fails). *)
Fixpoint drained (published : nat -> bool) (i : nat) (q : list RawPacket)
  : nat :=
  match q with
  | [] => O
  | _ :: q' => if published i then S (drained published (S i) q') else O
  end.

Fixpoint drain_events (published : nat -> bool) (i : nat)
  (q : list RawPacket) : list Event :=
  match q with
  | [] => []
  | p :: q' =>
      publish_of (published i) p
        :: (if published i then drain_events published (S i) q' else [])
  end.


(** The state in which one pass of [publishQueue] leaves [s]. *)
Definition drain_state (published : nat -> bool) (s : State) : State :=
  mkState (QUEUE_SIZE_MAX s) (use_auth_method s)
    (skipn (drained published 0 (packetQueue s)) (packetQueue s))
    (retry s) (timer s) (clock s)
    (trace s ++ map (pair (clock s)) (drain_events published 0 (packetQueue s))).

(** The [retry] flag and the timer go together: the flag is set exactly
    when no task is pending, and at most one task is ever pending. *)
Definition timer_ok (s : State) : Prop :=
  if retry s then timer s = [] else exists t, timer s = [t].


(** What a step may add to the trace: stamps are not in the past, and
    while [retry] is cleared only publish calls are made. *)
Definition added_ok (s : State) (e : Z * Event) : Prop :=
  clock s <= fst e /\ (retry s = false -> is_Publish e = true).

(** The waiting phase of a backoff of [d] milliseconds: [retry] is cleared
    and the one pending task has delay [d]. *)
Definition waiting (d : Z) (s : State) : Prop :=
  retry s = false /\ exists t0, timer s = [mkTask t0 d].


End Vocabulary.

(** ** Vocabulary for the hexadecimal dump and the timer *)

(** The two characters [convertToHex] writes for one byte, and the dump
    of a list of bytes. *)
Definition hex_of_byte (b : byte) : string := convertToHex_body b EmptyString.

Fixpoint hex_string (l : list byte) : string :=
  match l with
  | [] => EmptyString
  | b :: l => (hex_of_byte b ++ hex_string l)%string
  end.

(** Reading a dump back: the position of a character in [cs], the byte of
    two such characters, and the bytes of a string of pairs. *)
Fixpoint index_in (c : ascii) (s : string) : option nat :=
  match s with
  | EmptyString => None
  | String d s => if Ascii.eqb c d then Some O else option_map S (index_in c s)
  end.

Definition unhex (c1 c2 : ascii) : option byte :=
  match index_in c1 cs, index_in c2 cs with
  | Some h, Some l => Byte.of_N (N.of_nat (16 * h + l))
  | _, _ => None
  end.

Fixpoint parse_hex (s : string) : option (list byte) :=
  match s with
  | EmptyString => Some []
  | String c1 (String c2 rest) =>
      match unhex c1 c2, parse_hex rest with
      | Some b, Some bs => Some (b :: bs)
      | _, _ => None
      end
  | String _ EmptyString => None
  end.

(** The frames of a batch whose publish failed, in arrival order. *)
Definition unpublished (frames : list (RawPacket * bool)) : list RawPacket :=
  map fst (filter (fun f => negb (snd f)) frames).

(** The flag and the timer in full: with [retry] set nothing is pending;
    with [retry] cleared exactly one task is, armed in the past with one of
    the two delays of the sketch. *)
Definition timer_inv (s : State) : Prop :=
  if retry s then timer s = []
  else exists t0 d,
      timer s = [mkTask t0 d] /\ (d = 1000 \/ d = 5000) /\ t0 <= clock s.


(** A backoff armed at [t0] with delay [d], seen at the end of a pass of
    [loop]: either the deadline lies ahead and the wait is on, or it has
    been reached and [retry] is set again with no task pending. *)
Definition wait_state (t0 d : Z) (s : State) : Prop :=
  (clock s < t0 + d /\ retry s = false /\ timer s = [mkTask t0 d]) \/
  (t0 + d <= clock s /\ retry s = true /\ timer s = []).


(** * Properties *)

Section Facts.

Context {hdrs : Headers}.

(** ** Topic router *)

(** A case of the [switch] that is taken: the result is a route name and
    the code is a known one. *)
Ltac known_code E :=
  apply Byte.byte_dec_bl in E; subst;
  split; [simpl; tauto | intros N; exfalso; apply N; simpl; auto 10].

(** C7: [toTopicString] is total, every result is one of the six route
    names, and a code that is none of status, cpm, sensor, alert, location,
    health is routed to ["status"]. *)
Theorem toTopicString_total_default (t : byte) :
  In (toTopicString t) route_names /\
  (~ In t known_topics -> toTopicString t = "status").
Proof.
  unfold toTopicString, route_names, known_topics.
  destruct (Byte.eqb t topics_status) eqn:E1; [simpl; tauto|].
  destruct (Byte.eqb t topics_cpm) eqn:E2; [known_code E2|].
  destruct (Byte.eqb t topics_sensor) eqn:E3; [known_code E3|].
  destruct (Byte.eqb t topics_alert) eqn:E4; [known_code E4|].
  destruct (Byte.eqb t topics_location) eqn:E5; [known_code E5|].
  destruct (Byte.eqb t topics_health) eqn:E6; [known_code E6|].
  simpl; tauto.
Qed.

(** ** [quackJson] *)

Lemma quackJson_result ok p s :
  fst (quackJson ok p s) = if ok then 0 else -1.
Proof. unfold quackJson. destruct ok; reflexivity. Qed.

Lemma quackJson_state ok p s :
  snd (quackJson ok p s) = emit (publish_of ok p) s.
Proof. unfold quackJson, publish_of. destruct ok; reflexivity. Qed.

Lemma quackJson_eq ok p s :
  quackJson ok p s = (if ok then 0 else -1, emit (publish_of ok p) s).
Proof.
  rewrite (surjective_pairing (quackJson ok p s)).
  now rewrite quackJson_result, quackJson_state.
Qed.

(** *** The document when everything fits *)

Lemma json_set_fresh key v w (r : JsonDocument) :
  json_get key r = None ->
  json_set key v (r ++ [(key, w)]) = r ++ [(key, v)].
Proof.
  induction r as [|[k x] r IH]; cbn [json_get json_set app].
  - intros _. now rewrite String.eqb_refl.
  - destruct (String.eqb k key); [discriminate|]. intros N. now rewrite IH.
Qed.

Lemma string_bytes_pos str : 0 < string_bytes str.
Proof. unfold string_bytes. lia. Qed.

(** A string value for a new key, with room for its slot and its copy. *)
Lemma doc_set_string_fits key str d :
  json_get key (root d) = None ->
  pool_used d + sizeof_VariantSlot + string_bytes str <= capacity d ->
  root (doc_set key (JString str) d) = root d ++ [(key, JString str)] /\
  capacity (doc_set key (JString str) d) = capacity d /\
  pool_used (doc_set key (JString str) d)
    <= pool_used d + sizeof_VariantSlot + string_bytes str.
Proof.
  intros N F. pose proof (string_bytes_pos str) as P.
  unfold doc_set, addMember. rewrite N. unfold canAlloc.
  replace (pool_used d + sizeof_VariantSlot <=? capacity d) with true
    by (symmetry; apply Z.leb_le; lia).
  unfold saveString. cbn [pool_strings root capacity pool_slots].
  destruct (string_deduplication && existsb (String.eqb str) (pool_strings d)).
  - cbn [set_root root capacity]. rewrite json_set_fresh by exact N.
    repeat split. unfold pool_used. cbn [set_root pool_strings pool_slots]. lia.
  - unfold canAlloc, pool_used. cbn [pool_strings pool_slots capacity].
    unfold pool_used in F.
    replace (_ <=? capacity d) with true by (symmetry; apply Z.leb_le; lia).
    cbn [set_root root capacity pool_strings pool_slots fold_right].
    rewrite json_set_fresh by exact N. repeat split. lia.
Qed.

(** A number for a new key, with room for its slot. *)
Lemma doc_set_number_fits key n d :
  json_get key (root d) = None ->
  pool_used d + sizeof_VariantSlot <= capacity d ->
  root (doc_set key (JNumber n) d) = root d ++ [(key, JNumber n)] /\
  capacity (doc_set key (JNumber n) d) = capacity d /\
  pool_used (doc_set key (JNumber n) d) <= pool_used d + sizeof_VariantSlot.
Proof.
  intros N F. unfold doc_set, addMember. rewrite N. unfold canAlloc.
  replace (pool_used d + sizeof_VariantSlot <=? capacity d) with true
    by (symmetry; apply Z.leb_le; lia).
  cbn [set_root root capacity]. rewrite json_set_fresh by exact N.
  repeat split. unfold pool_used. cbn [set_root pool_strings pool_slots]. lia.
Qed.

Lemma string_of_list_byte_length (l : list byte) :
  String.length (string_of_list_byte l) = length l.
Proof.
  unfold string_of_list_byte.
  induction l as [|b l IH]; [reflexivity|]. cbn. now rewrite IH.
Qed.

(** X14: when the six members and the copies of the four string values
    fit in the pool of the document (six slots, the bytes of sduid, muid,
    payload and path and four terminating zeros, within
    [4 * JSON_OBJECT_SIZE(4)]), the one [client.publish] call of [quackJson]
    carries the serialisation of an object whose members are exactly
    DeviceID, MessageID, Payload, path, hops and duckType, with the values
    of the decoded packet, and its topic is ["iot-2/evt/"], the router's
    name for the packet's topic code, ["/fmt/json"]. *)
Theorem quackJson_message (ok : bool) (p : RawPacket) (s : State) :
  let packet := CdpPacket_of p in
  6 * sizeof_VariantSlot
  + Z.of_nat (length (sduid packet) + length (muid packet)
              + length (data packet) + length (path packet))
  + 4 <= 4 * JSON_OBJECT_SIZE 4 ->
  exists doc : JsonDocument,
    trace (snd (quackJson ok p s)) =
      trace s ++
      [(clock s,
        Publish ("iot-2/evt/" ++ toTopicString (topic packet) ++ "/fmt/json")
                (serializeJson doc) ok)] /\
    map fst doc = message_keys /\
    json_get "DeviceID" doc = Some (JString (string_of_list_byte (sduid packet))) /\
    json_get "MessageID" doc = Some (JString (string_of_list_byte (muid packet))) /\
    json_get "Payload" doc = Some (JString (string_of_list_byte (data packet))) /\
    json_get "path" doc = Some (JString (string_of_list_byte (path packet))) /\
    json_get "hops" doc = Some (JNumber (Z.of_N (Byte.to_N (hopCount packet)))) /\
    json_get "duckType" doc = Some (JNumber (Z.of_N (Byte.to_N (duckType packet)))).
Proof.
  intros packet F. exists (quackJson_doc packet).
  rewrite quackJson_state. unfold publish_of, quackJson_topic. fold packet.
  split; [reflexivity|].
  unfold quackJson_doc. cbv zeta.
  set (cap := 4 * JSON_OBJECT_SIZE 4) in *.
  set (d0 := empty_document cap).
  assert (B : forall l, string_bytes (string_of_list_byte l) = Z.of_nat (length l) + 1).
  { intros l. unfold string_bytes. now rewrite string_of_list_byte_length. }
  assert (U0 : pool_used d0 = 0) by reflexivity.
  assert (C0 : capacity d0 = cap) by reflexivity.
  assert (P : 0 <= sizeof_VariantSlot).
  { unfold cap, JSON_OBJECT_SIZE in F. lia. }
  destruct (@doc_set_string_fits "DeviceID" (string_of_list_byte (sduid packet)) d0)
    as (R1 & C1 & U1); [reflexivity | rewrite B; lia|].
  set (d1 := doc_set "DeviceID" _ d0) in *. rewrite B in U1.
  destruct (@doc_set_string_fits "MessageID" (string_of_list_byte (muid packet)) d1)
    as (R2 & C2 & U2); [rewrite R1; reflexivity | rewrite B; lia|].
  set (d2 := doc_set "MessageID" _ d1) in *. rewrite B in U2.
  destruct (@doc_set_string_fits "Payload" (string_of_list_byte (data packet)) d2)
    as (R3 & C3 & U3); [rewrite R2, R1; reflexivity | rewrite B; lia|].
  set (d3 := doc_set "Payload" _ d2) in *. rewrite B in U3.
  destruct (@doc_set_string_fits "path" (string_of_list_byte (path packet)) d3)
    as (R4 & C4 & U4); [rewrite R3, R2, R1; reflexivity | rewrite B; lia|].
  set (d4 := doc_set "path" _ d3) in *. rewrite B in U4.
  unfold byte_number.
  destruct (@doc_set_number_fits "hops" (Z.of_N (Byte.to_N (hopCount packet))) d4)
    as (R5 & C5 & U5); [rewrite R4, R3, R2, R1; reflexivity | lia|].
  set (d5 := doc_set "hops" _ d4) in *.
  destruct (@doc_set_number_fits "duckType" (Z.of_N (Byte.to_N (duckType packet))) d5)
    as (R6 & _ & _); [rewrite R5, R4, R3, R2, R1; reflexivity | lia|].
  rewrite R6, R5, R4, R3, R2, R1. repeat split.
Qed.

(** ** The retention queue under [handleDuckData] *)

Lemma handleDuckData_eq ok p s :
  handleDuckData ok p s =
    let s1 := emit (publish_of ok p) s in
    if ok then s1
    else
      set_packetQueue
        (Queue.push p
           (if Queue.size (packetQueue s) >? to_size_t (QUEUE_SIZE_MAX s)
            then Queue.pop (packetQueue s) else packetQueue s)) s1.
Proof.
  unfold handleDuckData. rewrite quackJson_eq.
  destruct ok; simpl; [reflexivity|].
  destruct (Queue.size (packetQueue s) >? to_size_t (QUEUE_SIZE_MAX s));
    reflexivity.
Qed.

Lemma handleDuckData_queue ok p s :
  packetQueue (handleDuckData ok p s) =
    if ok then packetQueue s
    else Queue.push p
           (if Queue.size (packetQueue s) >? to_size_t (QUEUE_SIZE_MAX s)
            then Queue.pop (packetQueue s) else packetQueue s).
Proof. rewrite handleDuckData_eq. destruct ok; reflexivity. Qed.

Lemma handleDuckData_trace ok p s :
  trace (handleDuckData ok p s) = trace s ++ [(clock s, publish_of ok p)].
Proof. rewrite handleDuckData_eq. destruct ok; reflexivity. Qed.

Lemma handleDuckData_frame ok p s :
  QUEUE_SIZE_MAX (handleDuckData ok p s) = QUEUE_SIZE_MAX s /\
  use_auth_method (handleDuckData ok p s) = use_auth_method s /\
  retry (handleDuckData ok p s) = retry s /\
  timer (handleDuckData ok p s) = timer s /\
  clock (handleDuckData ok p s) = clock s.
Proof. rewrite handleDuckData_eq. destruct ok; repeat split. Qed.

Lemma to_size_t_nonneg n : 0 <= to_size_t n.
Proof. unfold to_size_t. apply Z.mod_pos_bound. reflexivity. Qed.

Lemma to_size_t_small n : 0 <= n < 2 ^ 31 -> to_size_t n = n.
Proof.
  intros R. unfold to_size_t. apply Z.mod_small.
  change (2 ^ 31) with 2147483648 in R. change (2 ^ 32) with 4294967296. lia.
Qed.

Lemma size_pop q : 0 < Queue.size q -> Queue.size (Queue.pop q) = Queue.size q - 1.
Proof.
  unfold Queue.size, Queue.pop.
  destruct q as [|x q]; [simpl; lia | cbn [tl length]; lia].
Qed.

Lemma size_push p q : Queue.size (Queue.push p q) = Queue.size q + 1.
Proof.
  unfold Queue.size, Queue.push. rewrite length_app. cbn [length]. lia.
Qed.

Lemma handleDuckData_bounded ok p s :
  queue_bounded s -> queue_bounded (handleDuckData ok p s).
Proof.
  unfold queue_bounded. intros B.
  destruct (handleDuckData_frame ok p s) as (-> & _).
  rewrite handleDuckData_queue. destruct ok; [exact B|].
  pose proof (to_size_t_nonneg (QUEUE_SIZE_MAX s)) as P.
  rewrite size_push.
  destruct (Queue.size (packetQueue s) >? to_size_t (QUEUE_SIZE_MAX s)) eqn:E.
  - apply Z.gtb_lt in E. rewrite size_pop by lia. lia.
  - rewrite Z.gtb_ltb in E. apply Z.ltb_ge in E. lia.
Qed.

(** C4 (as amended): [handleDuckData] treats a frame of any length alike,
    so also one shorter than a minimum frame size: it makes one publish
    attempt for it, leaves the queue alone when the attempt succeeds and
    appends the frame (after dropping the front when the queue is over its
    bound) when the attempt fails. *)
Theorem handleDuckData_any_length (ok : bool) (P : RawPacket) (s : State) :
  trace (handleDuckData ok P s) = trace s ++ [(clock s, publish_of ok P)] /\
  packetQueue (handleDuckData ok P s) =
    (if ok then packetQueue s
     else (if Queue.size (packetQueue s) >? to_size_t (QUEUE_SIZE_MAX s)
           then Queue.pop (packetQueue s) else packetQueue s) ++ [P]).
Proof.
  split; [apply handleDuckData_trace | apply handleDuckData_queue].
Qed.

(** ** [publishQueue] *)

Lemma publishQueue_body_eq ok p s :
  publishQueue_body ok p s =
    (ok, if ok
         then set_packetQueue (Queue.pop (packetQueue s)) (emit (publish_of ok p) s)
         else emit (publish_of ok p) s).
Proof.
  unfold publishQueue_body. rewrite quackJson_eq. destruct ok; reflexivity.
Qed.

(** With more fuel than queued frames the loop returns, and its result is
    read off [drained] and [drain_events]. *)
Lemma publishQueue_loop_eq published :
  forall q fuel i s,
    packetQueue s = q ->
    (length q < fuel)%nat ->
    publishQueue_loop fuel published i s =
      Some (mkState (QUEUE_SIZE_MAX s) (use_auth_method s)
              (skipn (drained published i q) q) (retry s) (timer s) (clock s)
              (trace s ++ map (pair (clock s)) (drain_events published i q))).
Proof.
  induction q as [|p q IH]; intros fuel i s Hq Hf.
  - destruct fuel as [|fuel]; [simpl in Hf; lia|].
    destruct s; simpl in *. subst. simpl. now rewrite app_nil_r.
  - destruct fuel as [|fuel]; [simpl in Hf; lia|].
    cbn [publishQueue_loop]. rewrite Hq. cbn [Queue.empty Queue.front hd_error].
    rewrite publishQueue_body_eq. cbn [drained drain_events].
    destruct (published i) eqn:E.
    + rewrite (IH fuel (S i)); [| simpl; rewrite Hq; reflexivity
                                | simpl in Hf; lia].
      simpl. rewrite <- app_assoc. reflexivity.
    + destruct s; simpl in *. subst. reflexivity.
Qed.

Lemma publishQueue_eq published s :
  publishQueue published s =
    Some (mkState (QUEUE_SIZE_MAX s) (use_auth_method s)
            (skipn (drained published 0 (packetQueue s)) (packetQueue s))
            (retry s) (timer s) (clock s)
            (trace s ++
             map (pair (clock s)) (drain_events published 0 (packetQueue s)))).
Proof.
  unfold publishQueue. apply publishQueue_loop_eq; [reflexivity | lia].
Qed.

(** [publishQueue] always returns. *)
Lemma publishQueue_returns published s :
  exists s', publishQueue published s = Some s'.
Proof. rewrite publishQueue_eq. eauto. Qed.

Lemma drained_all published :
  forall q i,
    (forall j, (j < length q)%nat -> published (i + j)%nat = true) ->
    drained published i q = length q /\
    drain_events published i q = map (publish_of true) q.
Proof.
  induction q as [|p q IH]; intros i A; [split; reflexivity|].
  cbn [drained drain_events length map].
  assert (P0 : published i = true).
  { rewrite <- (Nat.add_0_r i). apply A. simpl. lia. }
  destruct (IH (S i)) as [D E].
  { intros j Hj. replace (S i + j)%nat with (i + S j)%nat by lia.
    apply A. simpl. lia. }
  now rewrite P0, D, E.
Qed.

Lemma drained_until published :
  forall q i n,
    (n < length q)%nat ->
    (forall j, (j < n)%nat -> published (i + j)%nat = true) ->
    published (i + n)%nat = false ->
    exists p,
      nth_error q n = Some p /\
      drained published i q = n /\
      drain_events published i q =
        map (publish_of true) (firstn n q) ++ [publish_of false p].
Proof.
  induction q as [|p q IH]; intros i n L A F; [simpl in L; lia|].
  destruct n as [|n].
  - exists p. rewrite Nat.add_0_r in F.
    cbn [drained drain_events]. rewrite F. repeat split.
  - destruct (IH (S i) n) as (pk & Hn & D & E).
    + simpl in L. lia.
    + intros j Hj. replace (S i + j)%nat with (i + S j)%nat by lia.
      apply A. lia.
    + replace (S i + n)%nat with (i + S n)%nat by lia. exact F.
    + exists pk. cbn [drained drain_events nth_error firstn map].
      assert (P0 : published i = true).
      { rewrite <- (Nat.add_0_r i). apply A. lia. }
      rewrite P0, D, E. repeat split; assumption.
Qed.

(** C3: when the publish succeeds for the first [k-1] queued frames and
    fails for the [k]-th, [publishQueue] returns with the first [k-1] frames
    removed and frames [k..m] left in their order, and the publish calls of
    the pass are those for frames [1..k] and no other. *)
Theorem publishQueue_stops_at_failure
  (published : nat -> bool) (s : State) (k : nat) :
  (1 <= k <= length (packetQueue s))%nat ->
  (forall j, (j < k - 1)%nat -> published j = true) ->
  published (k - 1)%nat = false ->
  exists s' pk,
    publishQueue published s = Some s' /\
    nth_error (packetQueue s) (k - 1) = Some pk /\
    packetQueue s' = skipn (k - 1) (packetQueue s) /\
    trace s' =
      trace s ++
      map (fun p => (clock s, publish_of true p)) (firstn (k - 1) (packetQueue s))
      ++ [(clock s, publish_of false pk)].
Proof.
  intros K A F.
  destruct (@drained_until published (packetQueue s) 0 (k - 1))
    as (pk & Hn & D & E); [lia | exact A | exact F |].
  rewrite publishQueue_eq, D, E.
  eexists; exists pk. split; [reflexivity|].
  cbn [packetQueue trace]. repeat split; try assumption.
  rewrite map_app, map_map. reflexivity.
Qed.

(** C8: when the queue is not empty and every publish succeeds, one call
    of [publishQueue] (the one [setup_mqtt] makes when the client is
    connected) leaves the queue empty, and its publish calls are those of
    the queued frames, oldest first. *)
Theorem publishQueue_empties (published : nat -> bool) (s : State) :
  packetQueue s <> [] ->
  (forall j, published j = true) ->
  exists s',
    publishQueue published s = Some s' /\
    packetQueue s' = [] /\
    trace s' =
      trace s ++ map (fun p => (clock s, publish_of true p)) (packetQueue s) /\
    forall m auth,
      client_connected m = true -> publish_ok m = published ->
      setup_mqtt m auth s = Some s'.
Proof.
  intros NE A.
  destruct (@drained_all published (packetQueue s) 0) as [D E].
  { intros j _. apply A. }
  eexists. split; [apply publishQueue_eq|].
  cbn [packetQueue trace]. rewrite D, E, skipn_all, map_map.
  repeat split.
  intros m auth C P. unfold setup_mqtt. rewrite C, P.
  assert (G : (Queue.size (packetQueue s) >? 0) = true).
  { apply Z.gtb_lt. unfold Queue.size.
    destruct (packetQueue s); [contradiction | cbn [length]; lia]. }
  rewrite G, publishQueue_eq, D, E, skipn_all, map_map. reflexivity.
Qed.

(** ** What the queue holds after failed publishes *)

Lemma keep_last_short (A : Type) (n : nat) (l : list A) :
  (length l <= n)%nat -> keep_last n l = l.
Proof.
  intros L. unfold keep_last. replace (length l - n)%nat with 0%nat by lia.
  reflexivity.
Qed.

Lemma keep_last_length (A : Type) (n : nat) (l : list A) :
  (length (keep_last n l) <= n)%nat.
Proof. unfold keep_last. rewrite length_skipn. lia. Qed.

Lemma keep_last_app (A : Type) (n : nat) (l r : list A) :
  keep_last n (keep_last n l ++ r) = keep_last n (l ++ r).
Proof.
  destruct (Nat.le_gt_cases (length l) n) as [L|L].
  - now rewrite (@keep_last_short A n l L).
  - unfold keep_last. rewrite !length_app, length_skipn.
    replace (length l - (length l - n) + length r - n)%nat
      with (length r) by lia.
    replace (length l + length r - n)%nat
      with (length r + (length l - n))%nat by lia.
    rewrite <- skipn_skipn. f_equal.
    rewrite skipn_app.
    replace (length l - n - length l)%nat with 0%nat by lia. reflexivity.
Qed.

Lemma keep_last_exact (A : Type) (l r : list A) :
  keep_last (length r) (l ++ r) = r.
Proof.
  unfold keep_last. rewrite length_app.
  replace (length l + length r - length r)%nat with (length l) by lia.
  rewrite skipn_app, skipn_all, Nat.sub_diag. reflexivity.
Qed.

(** One failed publish: the frame is appended and the queue is cut back to
    its last [to_size_t QUEUE_SIZE_MAX + 1] elements. *)
Lemma handleDuckData_failed_queue p s m :
  Z.of_nat m = to_size_t (QUEUE_SIZE_MAX s) + 1 ->
  (length (packetQueue s) <= m)%nat ->
  packetQueue (handleDuckData false p s) = keep_last m (packetQueue s ++ [p]).
Proof.
  intros M L. rewrite handleDuckData_queue. unfold Queue.push, Queue.size.
  pose proof (to_size_t_nonneg (QUEUE_SIZE_MAX s)) as P.
  destruct (Z.of_nat (length (packetQueue s)) >? to_size_t (QUEUE_SIZE_MAX s))
    eqn:E.
  - apply Z.gtb_lt in E. unfold keep_last. rewrite length_app. cbn [length].
    replace (length (packetQueue s) + 1 - m)%nat with 1%nat by lia.
    destruct (packetQueue s); [simpl in E; lia | reflexivity].
  - rewrite Z.gtb_ltb in E. apply Z.ltb_ge in E.
    rewrite keep_last_short; [reflexivity|].
    rewrite length_app. cbn [length]. lia.
Qed.

Lemma duck_run_cons f frames s :
  duck_run (f :: frames) s = duck_run frames (handleDuckData (snd f) (fst f) s).
Proof. reflexivity. Qed.

Lemma duck_run_frame frames :
  forall s,
    QUEUE_SIZE_MAX (duck_run frames s) = QUEUE_SIZE_MAX s /\
    use_auth_method (duck_run frames s) = use_auth_method s /\
    retry (duck_run frames s) = retry s /\
    timer (duck_run frames s) = timer s /\
    clock (duck_run frames s) = clock s.
Proof.
  induction frames as [|f frames IH]; intros s; [repeat split|].
  rewrite duck_run_cons.
  destruct (IH (handleDuckData (snd f) (fst f) s)) as (-> & -> & -> & -> & ->).
  apply handleDuckData_frame.
Qed.

Lemma duck_run_failing_queue ps :
  forall s m,
    Z.of_nat m = to_size_t (QUEUE_SIZE_MAX s) + 1 ->
    (length (packetQueue s) <= m)%nat ->
    packetQueue (duck_run (failing ps) s) = keep_last m (packetQueue s ++ ps).
Proof.
  induction ps as [|p ps IH]; intros s m M L.
  - simpl. rewrite app_nil_r. now rewrite keep_last_short.
  - cbn [failing map]. fold (failing ps).
    rewrite duck_run_cons. cbn [fst snd].
    rewrite (IH _ m).
    + rewrite (@handleDuckData_failed_queue p s m M L), keep_last_app.
      now rewrite <- app_assoc.
    + destruct (handleDuckData_frame false p s) as (-> & _). exact M.
    + rewrite (@handleDuckData_failed_queue p s m M L). apply keep_last_length.
Qed.

(** C1 (what the code does instead): after [QUEUE_SIZE_MAX + 1] frames
    whose publish attempts fail, the queue holds all of them, the oldest
    included: nothing is dropped until a further frame arrives. *)
Theorem overflow_keeps_oldest (s : State) (ps : list RawPacket) :
  0 <= QUEUE_SIZE_MAX s < 2 ^ 31 ->
  queue_bounded s ->
  Z.of_nat (length ps) = QUEUE_SIZE_MAX s + 1 ->
  packetQueue (duck_run (failing ps) s) = ps.
Proof.
  intros R B L. unfold queue_bounded, Queue.size in B.
  rewrite to_size_t_small in B by exact R.
  rewrite (@duck_run_failing_queue ps s (length ps)).
  - apply keep_last_exact.
  - rewrite to_size_t_small by exact R. exact L.
  - lia.
Qed.

(** ** [setup_mqtt], the timer and [loop] in closed form *)

Lemma drain_state_empty published s :
  packetQueue s = [] -> drain_state published s = s.
Proof.
  intros E. unfold drain_state. rewrite E. simpl. rewrite app_nil_r.
  destruct s; simpl in *. now subst.
Qed.

Lemma drain_when_nonempty published s :
  (if Queue.size (packetQueue s) >? 0 then publishQueue published s else Some s)
  = Some (drain_state published s).
Proof.
  destruct (Queue.size (packetQueue s) >? 0) eqn:E.
  - apply publishQueue_eq.
  - rewrite drain_state_empty; [reflexivity|].
    rewrite Z.gtb_ltb in E. apply Z.ltb_ge in E. unfold Queue.size in E.
    destruct (packetQueue s); [reflexivity | cbn [length] in E; lia].
Qed.

Lemma setup_mqtt_eq m auth s :
  setup_mqtt m auth s =
    Some (if client_connected m then drain_state (publish_ok m) s
          else
            let s1 := advance (connect_took m)
                        (emit (MqttConnect auth (connect_ok m)) s) in
            if connect_ok m then drain_state (publish_ok m) s1
            else retry_mqtt_connection 1000 s1).
Proof.
  unfold setup_mqtt. destruct (client_connected m).
  - apply drain_when_nonempty.
  - cbv zeta. destruct (connect_ok m); [apply drain_when_nonempty | reflexivity].
Qed.

Lemma run_due_eq now tasks :
  forall s,
    run_due now tasks s =
      if existsb (due now) tasks then set_retry true s else s.
Proof.
  induction tasks as [|t tasks IH]; intros s; [reflexivity|].
  cbn [run_due existsb]. destruct (due now t); rewrite IH; cbn [orb].
  - destruct (existsb (due now) tasks); reflexivity.
  - reflexivity.
Qed.

Lemma timer_tick_eq s :
  timer_tick s =
    set_timer (filter (fun t => negb (due (clock s) t)) (timer s))
      (if existsb (due (clock s)) (timer s) then set_retry true s else s).
Proof. unfold timer_tick. now rewrite run_due_eq. Qed.

Lemma loop_mqtt_returns e s : exists s', loop_mqtt e s = Some s'.
Proof.
  unfold loop_mqtt. destruct (wifi_after e && retry s); [|eauto].
  rewrite setup_mqtt_eq. eauto.
Qed.

(** A pass of [loop] always returns. *)
Lemma loop_returns e s : exists s', loop e s = Some s'.
Proof.
  unfold loop.
  destruct (loop_mqtt_returns e (loop_wifi e (advance (idle e) s))) as [s1 ->].
  eauto.
Qed.

Lemma run_returns es : forall s, exists s', run es s = Some s'.
Proof.
  induction es as [|e es IH]; intros s; [simpl; eauto|].
  cbn [run]. destruct (loop_returns e s) as [s1 ->]. apply IH.
Qed.

(** ** Reachable states *)

Lemma steps_trans s1 s2 s3 : steps s1 s2 -> steps s2 s3 -> steps s1 s3.
Proof.
  intros A B. induction B as [|s2 s3 s4 B IH C]; [exact A|].
  eapply steps_step; [apply IH; exact A | exact C].
Qed.

Lemma steps_one s1 s2 : step s1 s2 -> steps s1 s2.
Proof. intros A. eapply steps_step; [apply steps_refl | exact A]. Qed.

Lemma duck_run_steps frames : forall s, steps s (duck_run frames s).
Proof.
  induction frames as [|f frames IH]; intros s; [apply steps_refl|].
  rewrite duck_run_cons.
  eapply steps_trans; [apply steps_one, step_packet | apply IH].
Qed.

(** A pass of [loop] is a sequence of steps. *)
Lemma loop_steps e s s' : loop e s = Some s' -> steps s s'.
Proof.
  unfold loop. intros L.
  destruct (loop_mqtt e (loop_wifi e (advance (idle e) s))) as [s1|] eqn:M;
    [|discriminate].
  injection L as <-.
  eapply steps_step; [|apply step_timer].
  eapply steps_step; [|apply step_advance].
  eapply steps_trans; [|apply duck_run_steps].
  eapply steps_step; [|apply (step_mqtt e); exact M].
  eapply steps_step; [|apply step_wifi].
  apply steps_one, step_advance.
Qed.

Lemma run_steps es : forall s s', run es s = Some s' -> steps s s'.
Proof.
  induction es as [|e es IH]; intros s s' R.
  - injection R as <-. apply steps_refl.
  - cbn [run] in R. destruct (loop e s) as [s1|] eqn:L; [|discriminate].
    eapply steps_trans; [eapply loop_steps; exact L | apply IH; exact R].
Qed.

(** ** The queue bound is an invariant *)

Lemma queue_bounded_shrink s s' :
  QUEUE_SIZE_MAX s' = QUEUE_SIZE_MAX s ->
  (length (packetQueue s') <= length (packetQueue s))%nat ->
  queue_bounded s -> queue_bounded s'.
Proof. unfold queue_bounded, Queue.size. intros -> L B. lia. Qed.

Lemma drain_state_shrinks published s :
  (length (packetQueue (drain_state published s)) <= length (packetQueue s))%nat.
Proof. unfold drain_state. cbn [packetQueue]. rewrite length_skipn. lia. Qed.

Lemma length_pop (q : Queue.t) : (length (Queue.pop q) <= length q)%nat.
Proof. destruct q; simpl; lia. Qed.

Lemma step_queue s s' :
  step s s' ->
  QUEUE_SIZE_MAX s' = QUEUE_SIZE_MAX s /\
  ((length (packetQueue s') <= length (packetQueue s))%nat \/
   exists ok p, s' = handleDuckData ok p s).
Proof.
  intros St. destruct St as [dt s|e s|e s s' M|ok p q s Q|ok p s|s].
  - split; [reflexivity | left; simpl; lia].
  - unfold loop_wifi.
    destruct (negb (wifi_before e) && retry s);
      [destruct (negb (reconnect_err e =? DUCK_ERR_NONE))|];
      (split; [reflexivity | left; simpl; lia]).
  - unfold loop_mqtt in M. destruct (wifi_after e && retry s).
    + rewrite setup_mqtt_eq in M. injection M as <-.
      destruct (client_connected (mqtt e));
        [|cbv zeta; destruct (connect_ok (mqtt e))].
      * split; [reflexivity | left; apply drain_state_shrinks].
      * split; [reflexivity|]. left.
        etransitivity; [apply drain_state_shrinks | simpl; lia].
      * split; [reflexivity | left; simpl; lia].
    + injection M as <-. split; [reflexivity | left; lia].
  - rewrite publishQueue_body_eq. destruct ok; cbn [snd].
    + split; [reflexivity | left; simpl; apply length_pop].
    + split; [reflexivity | left; simpl; lia].
  - split; [apply handleDuckData_frame | right; eauto].
  - rewrite timer_tick_eq.
    destruct (existsb (due (clock s)) (timer s));
      (split; [reflexivity | left; simpl; lia]).
Qed.

Lemma step_bounded s s' : step s s' -> queue_bounded s -> queue_bounded s'.
Proof.
  intros St B. destruct (step_queue St) as [N [L|(ok & p & ->)]].
  - exact (@queue_bounded_shrink s s' N L B).
  - now apply handleDuckData_bounded.
Qed.

Lemma reachable_queue s0 s :
  reachable_from s0 s ->
  queue_bounded s0 ->
  QUEUE_SIZE_MAX s = QUEUE_SIZE_MAX s0 /\ queue_bounded s.
Proof.
  intros R B. induction R as [|s0 s1 s2 R IH St]; [split; [reflexivity|exact B]|].
  destruct (IH B) as [N B1]. split.
  - destruct (step_queue St) as [-> _]. exact N.
  - exact (step_bounded St B1).
Qed.

Lemma configured_bounded n : queue_bounded (configured n).
Proof.
  unfold queue_bounded, configured, Queue.size. simpl.
  pose proof (to_size_t_nonneg n). lia.
Qed.

(** C10: in every reachable state the queue holds at most
    [QUEUE_SIZE_MAX + 1] frames, and a failed publish that finds more than
    [QUEUE_SIZE_MAX] frames queued (the pop-then-push branch) leaves the
    length as it was. *)
Theorem queue_never_exceeds_max_plus_one (n : Z) (s : State) :
  0 <= n < 2 ^ 31 ->
  reachable_from (configured n) s ->
  Queue.size (packetQueue s) <= n + 1 /\
  QUEUE_SIZE_MAX s = n /\
  forall p,
    Queue.size (packetQueue s) > n ->
    Queue.size (packetQueue (handleDuckData false p s)) =
    Queue.size (packetQueue s).
Proof.
  intros Rn R.
  destruct (reachable_queue R (configured_bounded n)) as [N B].
  cbn [configured QUEUE_SIZE_MAX] in N.
  unfold queue_bounded in B. rewrite N, to_size_t_small in B by exact Rn.
  split; [exact B|]. split; [exact N|].
  intros p G. rewrite handleDuckData_queue, N, to_size_t_small by exact Rn.
  replace (Queue.size (packetQueue s) >? n) with true
    by (symmetry; apply Z.gtb_lt; lia).
  rewrite size_push, size_pop by lia. lia.
Qed.

Lemma loop_wifi_queue e s :
  QUEUE_SIZE_MAX (loop_wifi e s) = QUEUE_SIZE_MAX s /\
  packetQueue (loop_wifi e s) = packetQueue s.
Proof.
  unfold loop_wifi.
  destruct (negb (wifi_before e) && retry s);
    [destruct (negb (reconnect_err e =? DUCK_ERR_NONE))|]; split; reflexivity.
Qed.

Lemma timer_tick_queue s : packetQueue (timer_tick s) = packetQueue s.
Proof.
  rewrite timer_tick_eq. destruct (existsb (due (clock s)) (timer s)); reflexivity.
Qed.

(** C2 (what the code does instead): a state in which the queue holds
    [QUEUE_SIZE_MAX + 1] frames, one more than the bound, is reachable.  It
    is the state in which [duck.run()] returns after it has handed
    [QUEUE_SIZE_MAX + 1] frames to the callback while every publish failed,
    and the queue is still that long when the pass of [loop] ends. *)
Theorem queue_exceeds_max (n : nat) (ps : list RawPacket) :
  Z.of_nat n < 2 ^ 31 ->
  length ps = S n ->
  let s := duck_run (failing ps) (configured (Z.of_nat n)) in
  reachable_from (configured (Z.of_nat n)) s /\
  QUEUE_SIZE_MAX s = Z.of_nat n /\
  Queue.size (packetQueue s) = Z.of_nat n + 1 /\
  forall e s',
    wifi_after e = false -> received e = failing ps ->
    loop e (configured (Z.of_nat n)) = Some s' ->
    reachable_from (configured (Z.of_nat n)) s' /\
    Queue.size (packetQueue s') = Z.of_nat n + 1.
Proof.
  intros Rn L s. subst s.
  assert (Q : forall s0, QUEUE_SIZE_MAX s0 = Z.of_nat n -> packetQueue s0 = [] ->
              Queue.size (packetQueue (duck_run (failing ps) s0)) = Z.of_nat n + 1).
  { intros s0 N E. unfold Queue.size.
    rewrite (@duck_run_failing_queue ps s0 (length ps)).
    - rewrite E, app_nil_l, (keep_last_exact []), L. lia.
    - rewrite N, to_size_t_small, L by lia. lia.
    - rewrite E. simpl. lia. }
  split; [apply duck_run_steps|]. split; [apply duck_run_frame|].
  split; [apply Q; reflexivity|].
  intros e s' W Rc Lp. split; [exact (loop_steps _ _ Lp)|].
  unfold loop, loop_mqtt in Lp. rewrite W in Lp. cbn [andb] in Lp.
  injection Lp as <-. rewrite timer_tick_queue. cbn [advance set_clock packetQueue].
  rewrite Rc.
  destruct (loop_wifi_queue e (advance (idle e) (configured (Z.of_nat n))))
    as [N E].
  apply Q; [rewrite N | rewrite E]; reflexivity.
Qed.

(** ** Effects of a step on the clock, the trace, the flag and the timer *)

Lemma is_Publish_publish_of c ok p : is_Publish (c, publish_of ok p) = true.
Proof. reflexivity. Qed.

Lemma duck_run_trace frames :
  forall s,
    trace (duck_run frames s) =
      trace s ++ map (fun f => (clock s, publish_of (snd f) (fst f))) frames.
Proof.
  induction frames as [|f frames IH]; intros s.
  - simpl. now rewrite app_nil_r.
  - rewrite duck_run_cons, IH, handleDuckData_trace.
    destruct (handleDuckData_frame (snd f) (fst f) s) as (_ & _ & _ & _ & ->).
    rewrite <- app_assoc. reflexivity.
Qed.

Lemma Forall_drain_events (P : Z * Event -> Prop) (c : Z) published i q :
  (forall ok p, P (c, publish_of ok p)) ->
  Forall P (map (pair c) (drain_events published i q)).
Proof.
  intros A. revert i. induction q as [|p q IH]; intros i; [constructor|].
  cbn [drain_events map]. constructor; [apply A|].
  destruct (published i); [apply IH | constructor].
Qed.

Lemma step_effect s s' :
  step s s' ->
  clock s <= clock s' /\
  exists added, trace s' = trace s ++ added /\ Forall (added_ok s) added.
Proof.
  intros St. destruct St as [dt s|e s|e s s' M|ok p q s Q|ok p s|s].
  - split; [simpl; lia|]. exists []. split; [simpl; now rewrite app_nil_r|constructor].
  - unfold loop_wifi. destruct (negb (wifi_before e) && retry s) eqn:G.
    + apply andb_prop in G. destruct G as [_ G].
      assert (A : Forall (added_ok s) [(clock s, WifiReconnect (reconnect_err e))]).
      { repeat constructor; [simpl; lia | congruence]. }
      destruct (negb (reconnect_err e =? DUCK_ERR_NONE));
        (split; [simpl; lia | eexists; split; [reflexivity | exact A]]).
    + split; [lia|]. exists []. split; [now rewrite app_nil_r | constructor].
  - unfold loop_mqtt in M. destruct (wifi_after e && retry s) eqn:G.
    + apply andb_prop in G. destruct G as [_ G].
      rewrite setup_mqtt_eq in M. injection M as <-.
      destruct (client_connected (mqtt e));
        [|cbv zeta; destruct (connect_ok (mqtt e))].
      * split; [simpl; lia|]. eexists. split; [reflexivity|].
        apply Forall_drain_events. intros ok p. split; [simpl; lia | congruence].
      * split; [simpl; lia|]. eexists. split.
        { cbn [drain_state trace advance set_clock emit clock packetQueue].
          rewrite <- app_assoc. reflexivity. }
        constructor; [split; [simpl; lia | congruence]|].
        apply Forall_drain_events. intros ok p. split; [simpl; lia | congruence].
      * split; [simpl; lia|]. eexists. split; [reflexivity|].
        repeat constructor; [simpl; lia | congruence].
    + injection M as <-. split; [lia|]. exists [].
      split; [now rewrite app_nil_r | constructor].
  - rewrite publishQueue_body_eq.
    assert (A : Forall (added_ok s) [(clock s, publish_of ok p)]).
    { repeat constructor; simpl; lia. }
    destruct ok; cbn [snd];
      (split; [simpl; lia | eexists; split; [reflexivity | exact A]]).
  - destruct (handleDuckData_frame ok p s) as (_ & _ & _ & _ & ->).
    split; [lia|]. rewrite handleDuckData_trace. eexists. split; [reflexivity|].
    repeat constructor; simpl; lia.
  - rewrite timer_tick_eq. destruct (existsb (due (clock s)) (timer s));
      (split; [simpl; lia|]; exists []; split;
       [simpl; now rewrite app_nil_r | constructor]).
Qed.

(** While one task is pending and [retry] is cleared, a step either leaves
    both as they are or is the [timer.tick()] that finds the task due. *)
Lemma step_waiting s s' t0 d :
  step s s' ->
  retry s = false -> timer s = [mkTask t0 d] ->
  (retry s' = false /\ timer s' = [mkTask t0 d]) \/
  (t0 + d <= clock s' /\ retry s' = true /\ timer s' = []).
Proof.
  intros St R T. destruct St as [dt s|e s|e s s' M|ok p q s Q|ok p s|s].
  - left. split; assumption.
  - unfold loop_wifi. rewrite R, andb_false_r. left. split; assumption.
  - unfold loop_mqtt in M. rewrite R, andb_false_r in M. injection M as <-.
    left. split; assumption.
  - rewrite publishQueue_body_eq. destruct ok; left; split; assumption.
  - destruct (handleDuckData_frame ok p s) as (_ & _ & -> & -> & _).
    left. split; assumption.
  - rewrite timer_tick_eq, T. cbn [existsb filter orb].
    unfold due. cbn [start expires].
    destruct (clock s - t0 >=? d) eqn:D; cbn [orb negb].
    + right. apply Z.geb_le in D. simpl. repeat split. lia.
    + left. simpl. split; [exact R | reflexivity].
Qed.

Lemma step_timer_ok s s' : step s s' -> timer_ok s -> timer_ok s'.
Proof.
  intros St. unfold timer_ok at 1. destruct (retry s) eqn:R.
  - intros T. destruct St as [dt s|e s|e s s' M|ok p q s Q|ok p s|s].
    + unfold timer_ok. simpl. now rewrite R.
    + unfold loop_wifi, timer_ok.
      destruct (negb (wifi_before e) && retry s);
        [destruct (negb (reconnect_err e =? DUCK_ERR_NONE))|]; simpl;
        rewrite ?R, ?T; simpl; eauto.
    + unfold loop_mqtt in M. rewrite R in M.
      destruct (wifi_after e && true); [|injection M as <-; unfold timer_ok; now rewrite R].
      rewrite setup_mqtt_eq in M. injection M as <-. unfold timer_ok.
      destruct (client_connected (mqtt e));
        [|cbv zeta; destruct (connect_ok (mqtt e))]; simpl; rewrite ?R, ?T;
        simpl; eauto.
    + rewrite publishQueue_body_eq. unfold timer_ok.
      destruct ok; simpl; now rewrite R.
    + unfold timer_ok.
      destruct (handleDuckData_frame ok p s) as (_ & _ & -> & -> & _).
      now rewrite R.
    + rewrite timer_tick_eq, T. unfold timer_ok. simpl. now rewrite R.
  - intros [t T]. destruct t as [t0 d].
    destruct (step_waiting St R T) as [[R' T']|(_ & R' & T')];
      unfold timer_ok; rewrite R'; eauto.
Qed.

Lemma reachable_timer_ok n s : reachable_from (configured n) s -> timer_ok s.
Proof.
  intros R. remember (configured n) as s0 eqn:E.
  induction R as [|s0 s1 s2 R IH St]; [subst; reflexivity|].
  eapply step_timer_ok; [exact St | apply IH; exact E].
Qed.

(** ** Connection attempts made by one pass of [loop] *)

Lemma events_since_app s s' new :
  trace s' = trace s ++ new -> events_since s s' = new.
Proof.
  intros E. unfold events_since. rewrite E, skipn_app, skipn_all, Nat.sub_diag.
  reflexivity.
Qed.

Lemma connect_attempts_app a b :
  connect_attempts (a ++ b) = (connect_attempts a + connect_attempts b)%nat.
Proof. unfold connect_attempts. now rewrite filter_app, length_app. Qed.

Lemma wifi_attempts_app a b :
  wifi_attempts (a ++ b) = (wifi_attempts a + wifi_attempts b)%nat.
Proof. unfold wifi_attempts. now rewrite filter_app, length_app. Qed.

Lemma publishes_no_attempts l :
  Forall (fun e => is_Publish e = true) l ->
  connect_attempts l = 0%nat /\ wifi_attempts l = 0%nat.
Proof.
  induction 1 as [|[c ev] l P _ [IHc IHw]]; [split; reflexivity|].
  unfold connect_attempts, wifi_attempts in *. cbn [filter].
  destruct ev; [|discriminate P|discriminate P].
  cbn. split; assumption.
Qed.

Lemma drain_state_attempts published s :
  exists new,
    trace (drain_state published s) = trace s ++ new /\
    connect_attempts new = 0%nat /\ wifi_attempts new = 0%nat.
Proof.
  eexists. split; [reflexivity|]. apply publishes_no_attempts.
  apply Forall_drain_events. intros ok p. reflexivity.
Qed.

Lemma loop_wifi_attempts e s :
  retry (loop_wifi e s) =
    retry s && (wifi_before e || (reconnect_err e =? DUCK_ERR_NONE)) /\
  exists new,
    trace (loop_wifi e s) = trace s ++ new /\
    connect_attempts new = 0%nat /\
    wifi_attempts new = if negb (wifi_before e) && retry s then 1%nat else 0%nat.
Proof.
  unfold loop_wifi.
  destruct (wifi_before e), (retry s) eqn:R; cbn [negb andb orb];
    try (split; [now rewrite ?R|]; exists [];
         split; [now rewrite app_nil_r | split; reflexivity]).
  destruct (reconnect_err e =? DUCK_ERR_NONE); cbn [negb];
    (split; [simpl; now rewrite ?R|]; eexists;
     split; [reflexivity | split; reflexivity]).
Qed.

Lemma loop_mqtt_attempts e s s' :
  loop_mqtt e s = Some s' ->
  exists new,
    trace s' = trace s ++ new /\
    wifi_attempts new = 0%nat /\
    connect_attempts new =
      if wifi_after e && retry s && negb (client_connected (mqtt e))
      then 1%nat else 0%nat.
Proof.
  unfold loop_mqtt. destruct (wifi_after e && retry s); cbn [andb].
  - rewrite setup_mqtt_eq. intros [= <-].
    destruct (client_connected (mqtt e)); cbn [negb].
    + destruct (drain_state_attempts (publish_ok (mqtt e)) s) as (new & T & C & W).
      exists new. repeat split; assumption.
    + cbv zeta. destruct (connect_ok (mqtt e)).
      * match goal with |- context [drain_state ?f ?x] =>
          destruct (drain_state_attempts f x) as (new & T & C & W) end.
        eexists. split; [rewrite T; cbn [trace advance set_clock emit];
                         rewrite <- app_assoc; reflexivity|].
        rewrite wifi_attempts_app, connect_attempts_app, C, W. split; reflexivity.
      * eexists. split; [reflexivity | split; reflexivity].
  - intros [= <-]. exists []. split; [now rewrite app_nil_r | split; reflexivity].
Qed.

Lemma duck_run_attempts frames s :
  exists new,
    trace (duck_run frames s) = trace s ++ new /\
    connect_attempts new = 0%nat /\ wifi_attempts new = 0%nat.
Proof.
  eexists. split; [apply duck_run_trace|]. apply publishes_no_attempts.
  induction frames; constructor; [reflexivity | assumption].
Qed.

Lemma timer_tick_trace s : trace (timer_tick s) = trace s.
Proof.
  rewrite timer_tick_eq. destruct (existsb (due (clock s)) (timer s)); reflexivity.
Qed.

(** The attempts of one pass, by kind. *)
Lemma loop_attempts e s s' :
  loop e s = Some s' ->
  wifi_attempts (events_since s s') =
    (if negb (wifi_before e) && retry s then 1%nat else 0%nat) /\
  connect_attempts (events_since s s') =
    (if (wifi_before e || (reconnect_err e =? DUCK_ERR_NONE)) && wifi_after e
        && retry s && negb (client_connected (mqtt e))
     then 1%nat else 0%nat).
Proof.
  unfold loop. intros L.
  destruct (loop_mqtt e (loop_wifi e (advance (idle e) s))) as [sm|] eqn:M;
    [|discriminate].
  injection L as <-.
  destruct (loop_wifi_attempts e (advance (idle e) s)) as (Rw & nw & Tw & Cw & Ww).
  destruct (loop_mqtt_attempts _ _ M) as (nm & Tm & Wm & Cm).
  destruct (duck_run_attempts (received e) sm) as (nr & Tr & Cr & Wr).
  rewrite (@events_since_app s _ (nw ++ nm ++ nr)).
  - rewrite !wifi_attempts_app, !connect_attempts_app, Cw, Ww, Wm, Cm, Cr, Wr, Rw.
    cbn [advance set_clock retry].
    destruct (wifi_before e), (reconnect_err e =? DUCK_ERR_NONE), (wifi_after e),
      (retry s), (client_connected (mqtt e)); split; reflexivity.
  - rewrite timer_tick_trace. cbn [advance set_clock trace].
    rewrite Tr, Tm, Tw. cbn [advance set_clock trace].
    now rewrite <- !app_assoc.
Qed.

(** ** Backoff *)

(** From a state that waits on a task armed at [t0] with delay [d]: until
    the clock reaches [t0 + d] the wait goes on, and every call other than
    a publish is stamped [t0 + d] or later. *)
Lemma backoff_holds t0 d s1 :
  retry s1 = false -> timer s1 = [mkTask t0 d] ->
  forall s2, steps s1 s2 ->
    clock s1 <= clock s2 /\
    (exists new,
       trace s2 = trace s1 ++ new /\
       Forall (fun e => is_Publish e = true \/ t0 + d <= fst e) new) /\
    (clock s2 < t0 + d -> retry s2 = false /\ timer s2 = [mkTask t0 d]).
Proof.
  intros R T s2 St. induction St as [|s1 s2 s3 St IH S23].
  - split; [lia|]. split; [|auto].
    exists []. split; [now rewrite app_nil_r | constructor].
  - destruct (IH R T) as (C & (new & Tr & F) & Wt).
    destruct (step_effect S23) as (C' & added & Tr' & F').
    split; [lia|]. split.
    + exists (new ++ added). split; [rewrite Tr', Tr; now rewrite app_assoc|].
      apply Forall_app. split; [exact F|].
      eapply Forall_impl; [|exact F']. intros ev [Hc Hp].
      destruct (Z.lt_ge_cases (clock s2) (t0 + d)) as [L|L].
      * left. apply Hp. now apply Wt.
      * right. lia.
    + intros L. destruct Wt as [R2 T2]; [lia|].
      destruct (step_waiting S23 R2 T2) as [W|(G & _)]; [exact W | lia].
Qed.


(** C6 (as amended): the two backoffs are not independent.  A failed local
    reconnect starts a wait of 5000 ms and a failed transport connect one
    of 1000 ms, each by clearing the one flag [retry]; and in either wait a
    pass of [loop] makes neither a local reconnect attempt nor a transport
    connect attempt. *)
Theorem backoffs_share_retry (n : Z) (s : State) (e : Tick) :
  reachable_from (configured n) s ->
  retry s = true ->
  (wifi_before e = false -> reconnect_err e <> DUCK_ERR_NONE ->
   waiting 5000 (loop_wifi e s)) /\
  (client_connected (mqtt e) = false -> connect_ok (mqtt e) = false ->
   forall s1, setup_mqtt (mqtt e) (use_auth_method s) s = Some s1 ->
   waiting 1000 s1) /\
  (forall d w e' w',
     waiting d w -> loop e' w = Some w' ->
     wifi_attempts (events_since w w') = 0%nat /\
     connect_attempts (events_since w w') = 0%nat).
Proof.
  intros Rs R. pose proof (reachable_timer_ok Rs) as TO.
  unfold timer_ok in TO. rewrite R in TO. split; [|split].
  - intros W E. unfold loop_wifi, waiting. rewrite W, R. cbn [negb andb].
    apply Z.eqb_neq in E. rewrite E. cbn [negb]. simpl. rewrite TO.
    split; [reflexivity | eexists; reflexivity].
  - intros C F s1 Su. rewrite setup_mqtt_eq, C, F in Su. cbv zeta in Su.
    injection Su as <-. unfold waiting. simpl. rewrite TO.
    split; [reflexivity | eexists; reflexivity].
  - intros d w e' w' [Rw _] L. destruct (@loop_attempts _ _ _ L) as [-> ->].
    rewrite Rw, !andb_false_r. cbn [andb]. split; reflexivity.
Qed.

End Facts.

(** * The properties at concrete inputs *)

(** C7 at the code [x00], which is none of the six sample codes. *)
Lemma toTopicString_total_default_witness :
  In (toTopicString (hdrs := example_headers) x00) route_names /\
  toTopicString (hdrs := example_headers) x00 = "status".
Proof.
  destruct (@toTopicString_total_default example_headers x00)
    as [A B].
  split; [exact A | apply B].
  simpl. intros [E|[E|[E|[E|[E|[E|[]]]]]]]; discriminate E.
Defined.

(** C1 at six one-byte frames arriving at the freshly started sketch. *)
Lemma overflow_keeps_oldest_witness :
  packetQueue (duck_run (hdrs := example_headers) (failing six_frames)
                 initial_state)
  = six_frames.
Proof.
  apply (@overflow_keeps_oldest example_headers initial_state six_frames).
  - split; [discriminate | reflexivity].
  - apply configured_bounded.
  - reflexivity.
Defined.

(** C2 at the bound of the source, 5, and six one-byte frames. *)
Lemma queue_exceeds_max_witness :
  reachable_from (hdrs := example_headers) initial_state
    (duck_run (hdrs := example_headers) (failing six_frames) initial_state) /\
  QUEUE_SIZE_MAX
    (duck_run (hdrs := example_headers) (failing six_frames) initial_state) = 5 /\
  Queue.size
    (packetQueue
       (duck_run (hdrs := example_headers) (failing six_frames) initial_state))
  = 6.
Proof.
  destruct (@queue_exceeds_max example_headers 5 six_frames) as (A & B & C & _).
  - reflexivity.
  - reflexivity.
  - split; [exact A|]. split; [exact B | exact C].
Defined.

(** C10 at the state with six queued frames. *)
Lemma queue_never_exceeds_max_plus_one_witness :
  Queue.size
    (packetQueue
       (duck_run (hdrs := example_headers) (failing six_frames) initial_state))
  <= 5 + 1.
Proof.
  apply (@queue_never_exceeds_max_plus_one example_headers 5).
  - split; [discriminate | reflexivity].
  - apply duck_run_steps.
Defined.

(** C3 at three queued frames, the second publish failing. *)
Lemma publishQueue_stops_at_failure_witness :
  exists s',
    publishQueue (hdrs := example_headers) (fun j => Nat.ltb j 1) three_queued
      = Some s' /\
    packetQueue s' = [[x02]; [x03]] /\
    length (trace s') = 2%nat.
Proof.
  destruct (@publishQueue_stops_at_failure example_headers
              (fun j => Nat.ltb j 1) three_queued 2)
    as (s' & pk & E & _ & Q & T).
  - simpl. lia.
  - intros j Hj. destruct j; [reflexivity | simpl in Hj; lia].
  - reflexivity.
  - exists s'. split; [exact E|]. split; [exact Q|]. rewrite T. reflexivity.
Defined.

(** C8 at three queued frames. *)
Lemma publishQueue_empties_witness :
  exists s',
    publishQueue (hdrs := example_headers) (fun _ => true) three_queued
      = Some s' /\
    packetQueue s' = [] /\
    length (trace s') = 3%nat.
Proof.
  destruct (@publishQueue_empties example_headers (fun _ => true)
              three_queued)
    as (s' & E & Q & T & _).
  - discriminate.
  - reflexivity.
  - exists s'. split; [exact E|]. split; [exact Q|]. rewrite T. reflexivity.
Defined.

(** X14 at a frame with a payload of twelve bytes. *)
Lemma quackJson_message_witness :
  exists doc : JsonDocument,
    map fst doc = message_keys /\
    json_get "Payload" doc = Some (JString "AAAAAAAAAAAA") /\
    json_get "hops" doc = Some (JNumber 65).
Proof.
  destruct (@quackJson_message example_headers true fitting_frame initial_state)
    as (doc & _ & K & _ & _ & P & _ & H & _).
  - vm_compute. discriminate.
  - exists doc. split; [exact K|]. split; [exact P | exact H].
Defined.

(** C6 at the freshly started sketch, the network refusing. *)
Lemma backoffs_share_retry_witness :
  waiting 5000 (loop_wifi (hdrs := example_headers) tick_wifi_fails initial_state).
Proof.
  apply (@backoffs_share_retry example_headers 5 initial_state tick_wifi_fails).
  - apply steps_refl.
  - reflexivity.
  - reflexivity.
  - discriminate.
Defined.

(** * Where the code departs from the specification *)

(** C4: a frame of three bytes whose publish fails is published (with
    whatever the decoder made of it) and queued. *)
Lemma short_frame_is_published_and_queued :
  length short_frame = 3%nat /\
  packetQueue
    (handleDuckData (hdrs := example_headers) false short_frame initial_state)
  = [short_frame] /\
  exists payload,
    trace
      (handleDuckData (hdrs := example_headers) false short_frame initial_state)
    = [(0, Publish "iot-2/evt/status/fmt/json" payload false)].
Proof.
  split; [reflexivity|]. split; [reflexivity|]. eexists. reflexivity.
Qed.

(** C9 (what the code does instead): the document is sized for four
    members and holds six.  With a payload of 200 bytes the copy of the
    payload does not fit in its 256 bytes and the message is published
    with a null Payload; with a payload of 147 bytes the strings fit but
    the slot of the last member does not, and the message has no
    duckType. *)
Lemma long_payload_is_published_null :
  length (data (example_decoder long_frame)) = 200%nat /\
  json_get "Payload"
    (quackJson_doc (hdrs := example_headers) (example_decoder long_frame))
  = Some JNull /\
  length (data (example_decoder mid_frame)) = 147%nat /\
  json_get "duckType"
    (quackJson_doc (hdrs := example_headers) (example_decoder mid_frame))
  = None /\
  trace (snd (quackJson (hdrs := example_headers) true long_frame initial_state))
  = [(0, Publish "iot-2/evt/status/fmt/json"
           (serializeJson (Headers := example_headers)
              (quackJson_doc (hdrs := example_headers)
                 (example_decoder long_frame)))
           true)].
Proof.
  repeat split; vm_compute; reflexivity.
Qed.

(** C5: the broker refuses at time 0; the wait is over at time 1000, but
    the network has gone by then and stays away: up to time 8000, over
    three further passes, no connect attempt is made. *)
Lemma no_connect_after_backoff_when_network_down :
  exists s2 s5,
    run (hdrs := example_headers) [tick_mqtt_fails; tick_network_gone]
      initial_state = Some s2 /\
    trace s2 = [(0, MqttConnect true false)] /\
    clock s2 = 1000 /\ retry s2 = true /\ timer s2 = [] /\
    run (hdrs := example_headers)
      [tick_network_gone; tick_network_still_gone; tick_network_gone] s2
      = Some s5 /\
    clock s5 = 8000 /\
    connect_attempts (events_since s2 s5) = 0%nat.
Proof.
  eexists. eexists. split; [reflexivity|].
  repeat (split; [reflexivity|]). reflexivity.
Qed.

(** C6: while the transport backoff waits, a pass that finds the network
    down does not try to rejoin it, although the same pass does so when
    nothing waits; and while the local backoff waits, a pass that finds the
    network up does not try the broker, although the same pass does so when
    nothing waits. *)
Lemma waits_block_each_other :
  exists s1 s2 s2' w1 w2 w2',
    loop (hdrs := example_headers) tick_mqtt_fails initial_state = Some s1 /\
    waiting 1000 s1 /\ wifi_attempts (trace s1) = 0%nat /\
    loop (hdrs := example_headers) tick_network_back s1 = Some s2 /\
    wifi_attempts (events_since s1 s2) = 0%nat /\
    loop (hdrs := example_headers) tick_network_back initial_state = Some s2' /\
    wifi_attempts (events_since initial_state s2') = 1%nat /\
    loop (hdrs := example_headers) tick_wifi_fails initial_state = Some w1 /\
    waiting 5000 w1 /\ connect_attempts (trace w1) = 0%nat /\
    loop (hdrs := example_headers) tick_network_up w1 = Some w2 /\
    connect_attempts (events_since w1 w2) = 0%nat /\
    loop (hdrs := example_headers) tick_network_up initial_state = Some w2' /\
    connect_attempts (events_since initial_state w2') = 1%nat.
Proof.
  do 6 eexists.
  split; [reflexivity|]. split; [split; [reflexivity | eexists; reflexivity]|].
  do 6 (split; [reflexivity|]).
  split; [split; [reflexivity | eexists; reflexivity]|].
  repeat (split; [reflexivity|]). reflexivity.
Qed.

(** * Further properties of the sketch *)

(** ** [convertToHex] *)

Lemma string_app_assoc (a b c : string) :
  ((a ++ b) ++ c = a ++ (b ++ c))%string.
Proof. induction a as [|x a IH]; simpl; [reflexivity | now rewrite IH]. Qed.

Lemma string_app_nil_r (a : string) : (a ++ EmptyString)%string = a.
Proof. induction a as [|x a IH]; simpl; [reflexivity | now rewrite IH]. Qed.

Lemma string_length_app (a b : string) :
  String.length (a ++ b) = (String.length a + String.length b)%nat.
Proof. induction a as [|x a IH]; simpl; [reflexivity | now rewrite IH]. Qed.

Lemma list_ascii_app (a b : string) :
  list_ascii_of_string (a ++ b) =
  list_ascii_of_string a ++ list_ascii_of_string b.
Proof. induction a as [|x a IH]; simpl; [reflexivity | now rewrite IH]. Qed.

Lemma convertToHex_body_eq (b : byte) (buf : string) :
  convertToHex_body b buf = (buf ++ hex_of_byte b)%string.
Proof.
  unfold hex_of_byte, convertToHex_body, append_char. cbn [append].
  now rewrite string_app_assoc.
Qed.

(** Every byte gives two characters of [cs], from which it is read back. *)
Lemma hex_of_byte_spec (b : byte) :
  exists c1 c2,
    hex_of_byte b = String c1 (String c2 EmptyString) /\
    unhex c1 c2 = Some b /\
    In c1 (list_ascii_of_string cs) /\ In c2 (list_ascii_of_string cs).
Proof.
  destruct b; do 2 eexists; (split; [reflexivity|]); (split; [reflexivity|]);
    split; cbv; tauto.
Qed.

Lemma skipn_nth_error (A : Type) (l : list A) :
  forall i x, nth_error l i = Some x -> skipn i l = x :: skipn (S i) l.
Proof.
  induction l as [|y l IH]; intros [|i] x E; try discriminate E.
  - injection E as ->. reflexivity.
  - cbn [skipn]. apply IH. exact E.
Qed.

Lemma convertToHex_loop_eq (data : list byte) :
  forall n i buf,
    (i + n <= length data)%nat ->
    convertToHex_loop data n i buf =
      Some (buf ++ hex_string (firstn n (skipn i data)))%string.
Proof.
  induction n as [|n IH]; intros i buf L.
  - simpl. now rewrite string_app_nil_r.
  - cbn [convertToHex_loop].
    destruct (nth_error data i) as [val|] eqn:E.
    + rewrite IH by lia. rewrite (skipn_nth_error _ _ E).
      cbn [firstn hex_string].
      now rewrite convertToHex_body_eq, string_app_assoc.
    + apply nth_error_None in E. lia.
Qed.

Lemma convertToHex_eq (data : list byte) (size : Z) :
  size <= Z.of_nat (length data) ->
  convertToHex data size = Some (hex_string (firstn (Z.to_nat size) data)).
Proof.
  intros L. unfold convertToHex. rewrite convertToHex_loop_eq by (simpl; lia).
  reflexivity.
Qed.

Lemma hex_string_app (a b : list byte) :
  hex_string (a ++ b) = (hex_string a ++ hex_string b)%string.
Proof.
  induction a as [|x a IH]; [reflexivity|].
  cbn [app hex_string]. now rewrite IH, string_app_assoc.
Qed.

Lemma hex_string_length (l : list byte) :
  String.length (hex_string l) = (2 * length l)%nat.
Proof.
  induction l as [|b l IH]; [reflexivity|].
  cbn [hex_string length]. rewrite string_length_app, IH.
  destruct (hex_of_byte_spec b) as (c1 & c2 & -> & _). simpl. lia.
Qed.

Lemma hex_string_alphabet (l : list byte) (c : ascii) :
  In c (list_ascii_of_string (hex_string l)) -> In c (list_ascii_of_string cs).
Proof.
  induction l as [|b l IH]; [intros []|].
  cbn [hex_string]. rewrite list_ascii_app, in_app_iff.
  destruct (hex_of_byte_spec b) as (c1 & c2 & -> & _ & I1 & I2).
  intros [[<-|[<-|[]]]|I]; auto.
Qed.

Lemma parse_hex_string (l : list byte) : parse_hex (hex_string l) = Some l.
Proof.
  induction l as [|b l IH]; [reflexivity|].
  cbn [hex_string].
  destruct (hex_of_byte_spec b) as (c1 & c2 & -> & U & _).
  cbn [append parse_hex]. now rewrite U, IH.
Qed.

(** X1: the dump of a whole buffer has two characters per byte, all of
    them from ["0123456789ABCDEF"]. *)
Theorem convertToHex_shape (data : list byte) :
  exists s,
    convertToHex data (Z.of_nat (length data)) = Some s /\
    String.length s = (2 * length data)%nat /\
    forall c, In c (list_ascii_of_string s) -> In c (list_ascii_of_string cs).
Proof.
  eexists. split; [apply convertToHex_eq; lia|].
  rewrite Nat2Z.id, firstn_all.
  split; [apply hex_string_length | apply hex_string_alphabet].
Qed.

(** X2: the dump loses nothing: reading the pairs of characters back
    gives the buffer, so two buffers with the same dump are equal. *)
Theorem convertToHex_round_trip (data : list byte) :
  exists s,
    convertToHex data (Z.of_nat (length data)) = Some s /\
    parse_hex s = Some data /\
    forall data',
      convertToHex data' (Z.of_nat (length data')) = Some s -> data' = data.
Proof.
  eexists. split; [apply convertToHex_eq; lia|].
  rewrite Nat2Z.id, firstn_all. split; [apply parse_hex_string|].
  intros data' E. rewrite convertToHex_eq, Nat2Z.id, firstn_all in E by lia.
  injection E as E. apply (f_equal parse_hex) in E.
  rewrite !parse_hex_string in E. now injection E.
Qed.

(** X3: [size] selects a prefix: with [size <= 0] the dump is empty, only
    the first [size] bytes of the buffer are read, and the dump of a
    buffer is the dump of its first part followed by that of the rest. *)
Theorem convertToHex_prefix (a b : list byte) (size : Z) :
  size <= 0 ->
  convertToHex (a ++ b) size = Some EmptyString /\
  convertToHex (a ++ b) (Z.of_nat (length a)) =
    convertToHex a (Z.of_nat (length a)) /\
  exists sa sb,
    convertToHex a (Z.of_nat (length a)) = Some sa /\
    convertToHex b (Z.of_nat (length b)) = Some sb /\
    convertToHex (a ++ b) (Z.of_nat (length (a ++ b))) = Some (sa ++ sb)%string.
Proof.
  intros L. split; [|split].
  - unfold convertToHex. replace (Z.to_nat size) with 0%nat by lia. reflexivity.
  - rewrite !convertToHex_eq by (rewrite ?length_app; lia).
    rewrite Nat2Z.id, firstn_app, Nat.sub_diag, firstn_all. cbn [firstn].
    now rewrite app_nil_r.
  - do 2 eexists. rewrite !convertToHex_eq by lia.
    rewrite !Nat2Z.id, !firstn_all. repeat split. apply f_equal, hex_string_app.
Qed.

Section MoreFacts.

Context {hdrs : Headers}.

(** ** The route table *)

Lemma byte_eqb_refl (a : byte) : Byte.eqb a a = true.
Proof. now apply Byte.byte_dec_lb. Qed.

Lemma byte_eqb_neq (a b : byte) : a <> b -> Byte.eqb a b = false.
Proof.
  intros N. destruct (Byte.eqb a b) eqn:E; [|reflexivity].
  apply Byte.byte_dec_bl in E. contradiction.
Qed.

(** X4: the enumerators of [topics] being distinct (they are the labels of
    one [switch]), each has its own route: status, portal, sensor, alert,
    gps, health; and the route is ["status"] exactly for the status code
    and for the codes that are none of the six. *)
Theorem toTopicString_table :
  NoDup known_topics ->
  toTopicString topics_status = "status" /\
  toTopicString topics_cpm = "portal" /\
  toTopicString topics_sensor = "sensor" /\
  toTopicString topics_alert = "alert" /\
  toTopicString topics_location = "gps" /\
  toTopicString topics_health = "health" /\
  forall t,
    toTopicString t = "status" <-> (t = topics_status \/ ~ In t known_topics).
Proof.
  unfold known_topics. intros ND.
  repeat match goal with
         | ND : NoDup (_ :: _) |- _ =>
             apply NoDup_cons_iff in ND; destruct ND as [? ND]
         end.
  cbn [In] in *.
  unfold toTopicString.
  repeat (split;
          [rewrite ?byte_eqb_refl;
           repeat (rewrite byte_eqb_neq by (intros E; rewrite E in *; tauto));
           rewrite ?byte_eqb_refl; reflexivity|]).
  intros t. split.
  - destruct (Byte.eqb t topics_status) eqn:E1;
      [left; now apply Byte.byte_dec_bl|].
    destruct (Byte.eqb t topics_cpm) eqn:E2; [discriminate|].
    destruct (Byte.eqb t topics_sensor) eqn:E3; [discriminate|].
    destruct (Byte.eqb t topics_alert) eqn:E4; [discriminate|].
    destruct (Byte.eqb t topics_location) eqn:E5; [discriminate|].
    destruct (Byte.eqb t topics_health) eqn:E6; [discriminate|].
    intros _. right.
    intros [<-|[<-|[<-|[<-|[<-|[<-|[]]]]]]];
      rewrite byte_eqb_refl in *; discriminate.
  - intros [->|NI]; [now rewrite byte_eqb_refl|].
    repeat rewrite byte_eqb_neq by (intros E; apply NI; rewrite E; tauto).
    reflexivity.
Qed.

(** ** Which frames the queue holds *)

Lemma unpublished_cons f frames :
  unpublished (f :: frames) =
    if snd f then unpublished frames else fst f :: unpublished frames.
Proof. unfold unpublished. cbn [filter]. destruct (snd f); reflexivity. Qed.

(** After a batch of frames the queue is the old queue followed by the
    frames whose publish failed, cut back to the last
    [to_size_t QUEUE_SIZE_MAX + 1] of them. *)
Lemma duck_run_queue frames :
  forall s m,
    Z.of_nat m = to_size_t (QUEUE_SIZE_MAX s) + 1 ->
    (length (packetQueue s) <= m)%nat ->
    packetQueue (duck_run frames s) =
      keep_last m (packetQueue s ++ unpublished frames).
Proof.
  induction frames as [|f frames IH]; intros s m M L.
  - unfold unpublished. simpl. rewrite app_nil_r. now rewrite keep_last_short.
  - rewrite duck_run_cons, unpublished_cons.
    destruct (snd f) eqn:Ok.
    + destruct (handleDuckData_frame true (fst f) s) as (N & _).
      rewrite (IH _ m).
      * now rewrite handleDuckData_queue.
      * now rewrite N.
      * now rewrite handleDuckData_queue.
    + destruct (handleDuckData_frame false (fst f) s) as (N & _).
      rewrite (IH _ m).
      * rewrite (@handleDuckData_failed_queue _ (fst f) s m M L), keep_last_app.
        now rewrite <- app_assoc.
      * now rewrite N.
      * rewrite (@handleDuckData_failed_queue _ (fst f) s m M L).
        apply keep_last_length.
Qed.

(** X5: after [duck.run()] has handed any batch of frames to the
    callback, the queue holds the frames that were queued before followed
    by those of the batch whose publish failed, in arrival order, cut back
    to the last [QUEUE_SIZE_MAX + 1]; a frame whose publish succeeded is
    never queued. *)
Theorem duck_run_keeps_latest_failures
  (frames : list (RawPacket * bool)) (s : State) :
  0 <= QUEUE_SIZE_MAX s < 2 ^ 31 ->
  queue_bounded s ->
  packetQueue (duck_run frames s) =
    keep_last (Z.to_nat (QUEUE_SIZE_MAX s + 1))
      (packetQueue s ++ unpublished frames).
Proof.
  intros R B. unfold queue_bounded, Queue.size in B.
  rewrite to_size_t_small in B by exact R.
  apply duck_run_queue; [rewrite to_size_t_small by exact R|]; lia.
Qed.

(** X6: a negative [QUEUE_SIZE_MAX] is compared as the unsigned value
    [2^32 + QUEUE_SIZE_MAX], so nothing is ever dropped: every frame whose
    publish fails stays queued (as long as fewer than [2^31] are). *)
Theorem negative_bound_never_evicts
  (frames : list (RawPacket * bool)) (s : State) :
  - 2 ^ 31 <= QUEUE_SIZE_MAX s < 0 ->
  Z.of_nat (length (packetQueue s ++ unpublished frames)) <= 2 ^ 31 ->
  packetQueue (duck_run frames s) = packetQueue s ++ unpublished frames.
Proof.
  intros R L.
  assert (T : 2 ^ 31 <= to_size_t (QUEUE_SIZE_MAX s)).
  { unfold to_size_t.
    rewrite <- (Z.mod_add _ 1) by discriminate.
    rewrite Z.mod_small;
      change (2 ^ 31) with 2147483648 in *; change (2 ^ 32) with 4294967296;
      lia. }
  rewrite (@duck_run_queue frames s
             (Z.to_nat (to_size_t (QUEUE_SIZE_MAX s) + 1))).
  - apply keep_last_short. lia.
  - lia.
  - rewrite length_app in L. lia.
Qed.

(** ** One pass of [publishQueue], whatever the answers *)

Lemma drain_events_shape published :
  forall q i,
    (drained published i q <= length q)%nat /\
    (forall j, (j < drained published i q)%nat -> published (i + j)%nat = true) /\
    ((drained published i q < length q)%nat ->
     published (i + drained published i q)%nat = false) /\
    drain_events published i q =
      map (publish_of true) (firstn (drained published i q) q) ++
      match nth_error q (drained published i q) with
      | Some p => [publish_of false p]
      | None => []
      end.
Proof.
  induction q as [|p q IH]; intros i.
  - simpl. repeat split; try lia; intros j Hj; lia.
  - cbn [drained drain_events length].
    destruct (published i) eqn:E.
    + destruct (IH (S i)) as (A & B & C & D).
      split; [lia|]. split; [|split].
      * intros [|j] Hj; [now rewrite Nat.add_0_r|].
        replace (i + S j)%nat with (S i + j)%nat by lia. apply B. lia.
      * intros Hk.
        replace (i + S (drained published (S i) q))%nat
          with (S i + drained published (S i) q)%nat by lia.
        apply C. lia.
      * cbn [firstn map nth_error app]. now rewrite D.
    + split; [lia|]. split; [intros j Hj; lia|]. split.
      * intros _. now rewrite Nat.add_0_r.
      * reflexivity.
Qed.

(** X7: for every sequence of publish answers [publishQueue] returns; it
    removes a prefix of the queue and nothing else, every removed frame
    has been published successfully exactly once and in queue order, at
    most one failed publish follows (for the frame that is then at the
    front), and the flag, the timer and the bound are left alone. *)
Theorem publishQueue_removes_published_prefix
  (published : nat -> bool) (s : State) :
  exists s' k,
    publishQueue published s = Some s' /\
    (k <= length (packetQueue s))%nat /\
    packetQueue s' = skipn k (packetQueue s) /\
    (forall j, (j < k)%nat -> published j = true) /\
    ((k < length (packetQueue s))%nat -> published k = false) /\
    trace s' =
      trace s ++
      map (fun p => (clock s, publish_of true p)) (firstn k (packetQueue s)) ++
      match nth_error (packetQueue s) k with
      | Some p => [(clock s, publish_of false p)]
      | None => []
      end /\
    retry s' = retry s /\ timer s' = timer s /\ clock s' = clock s /\
    QUEUE_SIZE_MAX s' = QUEUE_SIZE_MAX s.
Proof.
  destruct (drain_events_shape published (packetQueue s) 0) as (A & B & C & D).
  eexists. exists (drained published 0 (packetQueue s)).
  split; [apply publishQueue_eq|]. cbn [packetQueue trace retry timer clock
                                         QUEUE_SIZE_MAX].
  split; [exact A|]. split; [reflexivity|]. split; [exact B|].
  split; [exact C|]. split; [|repeat split].
  rewrite D, map_app, map_map. f_equal. f_equal.
  destruct (nth_error (packetQueue s) (drained published 0 (packetQueue s)));
    reflexivity.
Qed.

(** X11: store and forward.  When the client is connected and every
    publish succeeds, the call of [setup_mqtt] that follows a batch of
    frames publishes the frames the queue kept (X5), oldest first, and
    leaves the queue empty. *)
Theorem queued_frames_are_republished_in_order
  (frames : list (RawPacket * bool)) (s : State) (m : MqttAnswers)
  (auth : bool) :
  0 <= QUEUE_SIZE_MAX s < 2 ^ 31 ->
  queue_bounded s ->
  client_connected m = true ->
  (forall j, publish_ok m j = true) ->
  exists s2,
    setup_mqtt m auth (duck_run frames s) = Some s2 /\
    packetQueue s2 = [] /\
    events_since (duck_run frames s) s2 =
      map (fun p => (clock s, publish_of true p))
        (keep_last (Z.to_nat (QUEUE_SIZE_MAX s + 1))
           (packetQueue s ++ unpublished frames)).
Proof.
  intros R B C A.
  destruct (@drained_all _ (publish_ok m) (packetQueue (duck_run frames s)) 0)
    as [D E]; [intros j _; apply A|].
  eexists. split; [rewrite setup_mqtt_eq, C; reflexivity|].
  unfold drain_state. cbn [packetQueue]. rewrite D, E, skipn_all.
  split; [reflexivity|].
  erewrite events_since_app; [|reflexivity].
  rewrite map_map.
  destruct (duck_run_frame frames s) as (_ & _ & _ & _ & ->).
  unfold queue_bounded, Queue.size in B.
  rewrite to_size_t_small in B by exact R.
  rewrite (@duck_run_queue frames s (Z.to_nat (QUEUE_SIZE_MAX s + 1)));
    [reflexivity | rewrite to_size_t_small by exact R; lia | lia].
Qed.

(** ** The flag and the timer *)

Lemma step_timer_inv s s' : step s s' -> timer_inv s -> timer_inv s'.
Proof.
  intros St. unfold timer_inv at 1. destruct (retry s) eqn:R.
  - intros T. destruct St as [dt s|e s|e s s' M|ok p q s Q|ok p s|s].
    + unfold timer_inv. simpl. now rewrite R.
    + unfold loop_wifi, timer_inv. rewrite R.
      destruct (negb (wifi_before e)); cbn [andb];
        [destruct (negb (reconnect_err e =? DUCK_ERR_NONE))|]; simpl;
        rewrite ?R, ?T; simpl; try reflexivity.
      do 2 eexists. split; [reflexivity|]. split; [now right | lia].
    + unfold loop_mqtt in M. rewrite R in M.
      destruct (wifi_after e && true);
        [|injection M as <-; unfold timer_inv; now rewrite R].
      rewrite setup_mqtt_eq in M. injection M as <-. unfold timer_inv.
      destruct (client_connected (mqtt e));
        [|cbv zeta; destruct (connect_ok (mqtt e))]; simpl; rewrite ?R, ?T;
        simpl; try reflexivity.
      do 2 eexists. split; [reflexivity|]. split; [now left | lia].
    + rewrite publishQueue_body_eq. unfold timer_inv.
      destruct ok; simpl; now rewrite R.
    + unfold timer_inv.
      destruct (handleDuckData_frame ok p s) as (_ & _ & -> & -> & _).
      now rewrite R.
    + rewrite timer_tick_eq, T. unfold timer_inv. simpl. now rewrite R.
  - intros (t0 & d & T & D & L).
    destruct (step_effect St) as (C & _).
    destruct (step_waiting St R T) as [[R' T']|(_ & R' & T')];
      unfold timer_inv; rewrite R'; [|exact T'].
    exists t0, d. split; [exact T'|]. split; [exact D | lia].
Qed.

(** X8: in every reachable state [retry] is set exactly when no timer
    task is pending, and when it is cleared exactly one task is pending,
    armed at or before the current time with a delay of 1000 or 5000 ms. *)
Theorem retry_and_timer_agree (n : Z) (s : State) :
  reachable_from (configured n) s ->
  (retry s = true <-> timer s = []) /\
  (length (timer s) <= 1)%nat /\
  forall t, In t (timer s) ->
    (expires t = 1000 \/ expires t = 5000) /\ start t <= clock s.
Proof.
  intros Rs.
  assert (I : timer_inv s).
  { remember (configured n) as s0 eqn:E.
    induction Rs as [|s0 s1 s2 Rs IH St]; [subst; reflexivity|].
    eapply step_timer_inv; [exact St | apply IH; exact E]. }
  unfold timer_inv in I. destruct (retry s).
  - rewrite I. split; [tauto|]. split; [simpl; lia | intros t []].
  - destruct I as (t0 & d & -> & D & L). split; [split; discriminate|].
    split; [simpl; lia|]. intros t [<-|[]]. split; assumption.
Qed.

(** X9: a failed [duck.reconnectWifi] (lines 268-273) starts a wait of
    5000 ms: from then on every call stamped earlier than 5000 ms later is
    a publish (no reconnect and no connect attempt is made), and until
    then [retry] stays cleared with that one task pending. *)
Theorem wifi_backoff (n : Z) (s : State) (e : Tick) :
  reachable_from (configured n) s ->
  retry s = true ->
  wifi_before e = false ->
  reconnect_err e <> DUCK_ERR_NONE ->
  forall s2,
    steps (loop_wifi e s) s2 ->
    (forall ev,
       In ev (events_since (loop_wifi e s) s2) ->
       fst ev < clock (loop_wifi e s) + 5000 -> is_Publish ev = true) /\
    (clock s2 < clock (loop_wifi e s) + 5000 ->
     retry s2 = false /\ timer s2 = [mkTask (clock (loop_wifi e s)) 5000]).
Proof.
  intros Rs R W E s2 St.
  pose proof (reachable_timer_ok Rs) as TO. unfold timer_ok in TO.
  rewrite R in TO.
  assert (A : retry (loop_wifi e s) = false /\
              timer (loop_wifi e s) = [mkTask (clock (loop_wifi e s)) 5000]).
  { unfold loop_wifi. rewrite W, R. cbn [negb andb].
    apply Z.eqb_neq in E. rewrite E. cbn [negb]. simpl. now rewrite TO. }
  destruct A as [A1 A2].
  destruct (backoff_holds A1 A2 St) as (_ & (new & Tr & Fa) & Wt).
  split; [|exact Wt].
  intros ev I Lt. rewrite (@events_since_app _ _ _ Tr) in I.
  rewrite Forall_forall in Fa. destruct (Fa _ I) as [P|G]; [exact P | lia].
Qed.

(** A pass of [loop] entered with [retry] cleared and one task pending. *)
Lemma loop_waiting (e : Tick) (s s' : State) (t0 d : Z) :
  retry s = false ->
  timer s = [mkTask t0 d] ->
  loop e s = Some s' ->
  s' = timer_tick (advance (busy e) (duck_run (received e) (advance (idle e) s))) /\
  events_since s s' =
    map (fun f => (clock s + Z.of_N (idle e), publish_of (snd f) (fst f)))
      (received e) /\
  clock s' = clock s + Z.of_N (idle e) + Z.of_N (busy e) /\
  (t0 + d <= clock s' -> retry s' = true /\ timer s' = []) /\
  (clock s' < t0 + d -> retry s' = false /\ timer s' = [mkTask t0 d]).
Proof.
  intros R T L. unfold loop in L.
  assert (W : loop_wifi e (advance (idle e) s) = advance (idle e) s).
  { unfold loop_wifi. cbn [advance set_clock retry].
    now rewrite R, andb_false_r. }
  rewrite W in L. unfold loop_mqtt in L. cbn [advance set_clock retry] in L.
  rewrite R, andb_false_r in L. injection L as <-.
  set (s1 := duck_run (received e) (advance (idle e) s)).
  destruct (duck_run_frame (received e) (advance (idle e) s))
    as (_ & _ & R1 & T1 & C1).
  fold s1 in R1, T1, C1. cbn [advance set_clock retry timer clock] in R1, T1, C1.
  assert (Ck : clock (timer_tick (advance (busy e) s1)) =
               clock s + Z.of_N (idle e) + Z.of_N (busy e)).
  { rewrite timer_tick_eq.
    destruct (existsb _ _); cbn [advance set_clock set_timer set_retry clock];
      rewrite C1; reflexivity. }
  split; [reflexivity|]. split; [|split; [exact Ck|]].
  - apply events_since_app. rewrite timer_tick_trace.
    cbn [advance set_clock trace]. unfold s1. now rewrite duck_run_trace.
  - rewrite Ck, timer_tick_eq. cbn [advance set_clock timer clock].
    rewrite T1, T, C1. cbn [existsb filter orb]. unfold due. cbn [start expires].
    destruct (clock s + Z.of_N (idle e) + Z.of_N (busy e) - t0 >=? d) eqn:D.
    + apply Z.geb_le in D.
      split; [intros _; split; reflexivity | intros G; lia].
    + rewrite Z.geb_leb in D. apply Z.leb_gt in D.
      split; [intros G; lia|]. intros _. simpl. rewrite R1, R.
      split; reflexivity.
Qed.

(** X10: a pass of [loop] entered while a backoff waits only serves the
    mesh and the timer: its calls are the publishes of the frames received
    in that pass (the queue is not drained, whatever the client reports),
    and the wait ends in that pass exactly when [timer.tick()] reads a
    clock at or past the deadline. *)
Theorem pass_during_wait (e : Tick) (s s' : State) (t0 d : Z) :
  retry s = false ->
  timer s = [mkTask t0 d] ->
  loop e s = Some s' ->
  s' = timer_tick (advance (busy e) (duck_run (received e) (advance (idle e) s))) /\
  events_since s s' =
    map (fun f => (clock s + Z.of_N (idle e), publish_of (snd f) (fst f)))
      (received e) /\
  clock s' = clock s + Z.of_N (idle e) + Z.of_N (busy e) /\
  (t0 + d <= clock s' -> retry s' = true /\ timer s' = []) /\
  (clock s' < t0 + d -> retry s' = false /\ timer s' = [mkTask t0 d]).
Proof. apply loop_waiting. Qed.

(** X12: a pass of [loop] makes at most one [duck.reconnectWifi] call and
    at most one [client.connect] call; it does not try to rejoin a network
    that it found up, and it does not try the broker when the network is
    down at line 275, when the client reports that it is connected, or when
    its own reconnect attempt has just failed. *)
Theorem one_attempt_per_pass (e : Tick) (s s' : State) :
  loop e s = Some s' ->
  (wifi_attempts (events_since s s') <= 1)%nat /\
  (connect_attempts (events_since s s') <= 1)%nat /\
  (wifi_before e = true -> wifi_attempts (events_since s s') = 0%nat) /\
  (wifi_after e = false -> connect_attempts (events_since s s') = 0%nat) /\
  (client_connected (mqtt e) = true ->
   connect_attempts (events_since s s') = 0%nat) /\
  (wifi_before e = false -> reconnect_err e <> DUCK_ERR_NONE ->
   connect_attempts (events_since s s') = 0%nat).
Proof.
  intros L. destruct (@loop_attempts _ _ _ _ L) as [-> ->].
  split; [destruct (negb (wifi_before e) && retry s); lia|].
  split; [match goal with |- ((if ?c then _ else _) <= _)%nat =>
            destruct c; lia end|].
  split; [intros ->; reflexivity|].
  split; [intros ->; now rewrite andb_false_r|].
  split; [intros ->; now rewrite andb_false_r|].
  intros -> E. apply Z.eqb_neq in E. now rewrite E.
Qed.

(** X13: recovery.  When a pass ends a wait (its [timer.tick()] reads a
    clock at or past the deadline) and the next pass finds the network up,
    the client not connected and the broker accepting, with every publish
    succeeding and no frame received, that next pass makes one connect
    call, then publishes the whole queue oldest first, and ends with the
    queue empty and [retry] set. *)
Theorem recovery_after_wait
  (e1 e2 : Tick) (s s1 s2 : State) (t0 d : Z) :
  retry s = false ->
  timer s = [mkTask t0 d] ->
  loop e1 s = Some s1 ->
  t0 + d <= clock s + Z.of_N (idle e1) + Z.of_N (busy e1) ->
  wifi_before e2 = true ->
  wifi_after e2 = true ->
  client_connected (mqtt e2) = false ->
  connect_ok (mqtt e2) = true ->
  (forall j, publish_ok (mqtt e2) j = true) ->
  received e2 = [] ->
  loop e2 s1 = Some s2 ->
  packetQueue s2 = [] /\
  retry s2 = true /\ timer s2 = [] /\
  events_since s1 s2 =
    (clock s1 + Z.of_N (idle e2), MqttConnect (use_auth_method s1) true)
    :: map (fun p =>
              (clock s1 + Z.of_N (idle e2) + Z.of_N (connect_took (mqtt e2)),
               publish_of true p))
         (packetQueue s1).
Proof.
  intros R T L1 Dl Wb Wa Cc Co Pk Rc L2.
  destruct (@loop_waiting e1 s s1 t0 d R T L1) as (_ & _ & Ck & F & _).
  destruct F as [R1 T1]; [lia|].
  unfold loop in L2.
  assert (W : loop_wifi e2 (advance (idle e2) s1) = advance (idle e2) s1).
  { unfold loop_wifi. now rewrite Wb. }
  rewrite W in L2. unfold loop_mqtt in L2.
  cbn [advance set_clock retry use_auth_method] in L2.
  rewrite Wa, R1, setup_mqtt_eq, Cc, Co, Rc in L2. cbv zeta in L2.
  cbn [andb duck_run fold_left] in L2. injection L2 as <-.
  match goal with |- context [drain_state _ ?x] => set (sc := x) end.
  destruct (@drained_all _ (publish_ok (mqtt e2)) (packetQueue sc) 0)
    as [D E]; [intros j _; apply Pk|].
  assert (Q : packetQueue sc = packetQueue s1) by reflexivity.
  set (X := advance (busy e2) (drain_state (publish_ok (mqtt e2)) sc)).
  assert (TX : timer X = []) by exact T1.
  assert (RX : retry X = true) by exact R1.
  rewrite timer_tick_eq, TX. cbn [existsb filter].
  split.
  { unfold X, drain_state. cbn [advance set_clock set_timer packetQueue].
    rewrite D. apply skipn_all. }
  split; [exact RX|]. split; [reflexivity|].
  apply events_since_app. unfold X, drain_state.
  cbn [advance set_clock set_timer trace]. rewrite E, Q, map_map.
  unfold sc. cbn [advance set_clock emit trace clock].
  rewrite <- app_assoc. reflexivity.
Qed.

(** ** The transport backoff, pass by pass *)

Lemma steps_stamps s1 s2 :
  steps s1 s2 ->
  clock s1 <= clock s2 /\
  exists new, trace s2 = trace s1 ++ new /\ Forall (fun e => clock s1 <= fst e) new.
Proof.
  intros St. induction St as [|s1 s2 s3 St IH S23].
  - split; [lia|]. exists []. split; [now rewrite app_nil_r | constructor].
  - destruct IH as (C & new & Tr & F).
    destruct (step_effect S23) as (C' & added & Tr' & F').
    split; [lia|]. exists (new ++ added).
    split; [rewrite Tr', Tr; now rewrite app_assoc|].
    apply Forall_app. split; [exact F|].
    eapply Forall_impl; [|exact F']. intros ev [Hc _]. lia.
Qed.

(** What is left of a pass after its two connection blocks, when a wait
    is on: [duck.run()] and [timer.tick()]. *)
Lemma finish_pass_waiting frames busy w t0 d :
  retry w = false -> timer w = [mkTask t0 d] ->
  wait_state t0 d (timer_tick (advance busy (duck_run frames w))) /\
  exists new,
    trace (timer_tick (advance busy (duck_run frames w))) = trace w ++ new /\
    connect_attempts new = 0%nat /\ wifi_attempts new = 0%nat.
Proof.
  intros R T.
  destruct (duck_run_frame frames w) as (_ & _ & R1 & T1 & C1).
  destruct (duck_run_attempts frames w) as (new & Tr & Cn & Wn).
  split.
  - unfold wait_state. rewrite timer_tick_eq.
    cbn [advance set_clock timer clock]. rewrite T1, T.
    cbn [existsb filter orb]. unfold due. cbn [start expires].
    destruct (clock (duck_run frames w) + Z.of_N busy - t0 >=? d) eqn:D.
    + apply Z.geb_le in D. right. cbn. repeat split. lia.
    + rewrite Z.geb_leb in D. apply Z.leb_gt in D. left. cbn.
      rewrite R1, R. repeat split. lia.
  - exists new. rewrite timer_tick_trace. cbn [advance set_clock trace].
    repeat split; assumption.
Qed.

Lemma loop_wait_state e w w1 t0 d :
  clock w < t0 + d -> retry w = false -> timer w = [mkTask t0 d] ->
  loop e w = Some w1 ->
  wait_state t0 d w1.
Proof.
  intros _ R T L.
  destruct (@loop_waiting e w w1 t0 d R T L) as (_ & _ & _ & F & G).
  destruct (Z.lt_ge_cases (clock w1) (t0 + d)) as [Lt|Ge].
  - left. split; [exact Lt | now apply G].
  - right. split; [exact Ge | now apply F].
Qed.

(** A pass entered with [retry] set that makes no attempt of either kind
    leaves [retry] set. *)
Lemma loop_quiet e w w1 :
  retry w = true -> timer w = [] ->
  loop e w = Some w1 ->
  wifi_attempts (events_since w w1) = 0%nat ->
  connect_attempts (events_since w w1) = 0%nat ->
  retry w1 = true /\ timer w1 = [].
Proof.
  intros R T L Wn Cn.
  destruct (@loop_attempts _ _ _ _ L) as [Wa Ca].
  rewrite Wa in Wn. rewrite Ca in Cn. rewrite R in Wn, Cn.
  destruct (wifi_before e) eqn:Wb; [|discriminate Wn].
  cbn [orb andb] in Cn.
  unfold loop in L.
  assert (W : loop_wifi e (advance (idle e) w) = advance (idle e) w).
  { unfold loop_wifi. now rewrite Wb. }
  rewrite W in L. unfold loop_mqtt in L.
  change (retry (advance (idle e) w)) with (retry w) in L.
  rewrite R, andb_true_r in L.
  assert (M : exists sm, (if wifi_after e
                          then setup_mqtt (mqtt e)
                                 (use_auth_method (advance (idle e) w))
                                 (advance (idle e) w)
                          else Some (advance (idle e) w)) = Some sm /\
                         retry sm = true /\ timer sm = []).
  { destruct (wifi_after e).
    - rewrite andb_true_r in Cn.
      destruct (client_connected (mqtt e)) eqn:Cc; [|discriminate Cn].
      rewrite setup_mqtt_eq, Cc. eexists. split; [reflexivity|].
      split; [exact R | exact T].
    - eexists. split; [reflexivity|]. split; [exact R | exact T]. }
  destruct M as (sm & E & Rm & Tm). rewrite E in L. injection L as <-.
  destruct (duck_run_frame (received e) sm) as (_ & _ & R1 & T1 & _).
  rewrite timer_tick_eq. cbn [advance set_clock timer]. rewrite T1, Tm.
  cbn. rewrite R1. split; [exact Rm | reflexivity].
Qed.

(** Over any number of passes that make no attempt of either kind, the
    state at the end of a pass is a [wait_state]. *)
Lemma run_wait t0 d es :
  forall w s2 new,
    wait_state t0 d w ->
    run es w = Some s2 ->
    trace s2 = trace w ++ new ->
    connect_attempts new = 0%nat -> wifi_attempts new = 0%nat ->
    wait_state t0 d s2.
Proof.
  induction es as [|e es IH]; intros w s2 new W Rn Tr Cn Wn.
  - injection Rn as <-. exact W.
  - cbn [run] in Rn. destruct (loop e w) as [w1|] eqn:L; [|discriminate].
    destruct (steps_stamps (loop_steps _ _ L)) as (C1 & n1 & T1 & _).
    destruct (steps_stamps (run_steps _ _ Rn)) as (_ & n2 & T2 & _).
    assert (E : new = n1 ++ n2).
    { apply (app_inv_head (trace w)). rewrite <- Tr, T2, T1.
      now rewrite app_assoc. }
    subst new. rewrite connect_attempts_app in Cn. rewrite wifi_attempts_app in Wn.
    apply (IH w1 s2 n2); try lia; try assumption.
    destruct W as [(Lt & R & T)|(Ge & R & T)].
    + exact (@loop_wait_state e w w1 t0 d Lt R T L).
    + right. split; [lia|].
      apply (@loop_quiet e w w1 R T L);
        rewrite (@events_since_app _ _ _ T1); lia.
Qed.

(** C5 (as amended): let a pass of [loop] make a [client.connect] call
    that fails, at time [failed].  That pass makes no other connect call.
    Over any number of further passes, no connect call is stamped before
    [failed + 1000]; as long as no attempt of either kind has been made
    since, [retry] at the end of a pass is set exactly when the clock has
    reached [failed + 1000] (the [timer.tick()] of the pass that reaches it
    sets it); and the next pass then makes exactly one connect call,
    provided it finds the local network connected (or rejoins it) and the
    client, not connected since, says so. *)
Theorem mqtt_backoff (n : Z) (s0 s1 : State) (e0 : Tick) :
  reachable_from (configured n) s0 ->
  retry s0 = true ->
  wifi_before e0 || (reconnect_err e0 =? DUCK_ERR_NONE) = true ->
  wifi_after e0 = true ->
  client_connected (mqtt e0) = false ->
  connect_ok (mqtt e0) = false ->
  loop e0 s0 = Some s1 ->
  let failed :=
    clock s0 + Z.of_N (idle e0)
    + (if wifi_before e0 then 0 else Z.of_N (reconnect_took e0))
    + Z.of_N (connect_took (mqtt e0)) in
  connect_attempts (events_since s0 s1) = 1%nat /\
  forall es s2,
    run es s1 = Some s2 ->
    (forall t a ok,
       In (t, MqttConnect a ok) (events_since s1 s2) -> failed + 1000 <= t) /\
    (connect_attempts (events_since s1 s2) = 0%nat ->
     wifi_attempts (events_since s1 s2) = 0%nat ->
     (retry s2 = true <-> failed + 1000 <= clock s2) /\
     (failed + 1000 <= clock s2 ->
      forall e s3,
        wifi_before e || (reconnect_err e =? DUCK_ERR_NONE) = true ->
        wifi_after e = true ->
        client_connected (mqtt e) = false ->
        loop e s2 = Some s3 ->
        connect_attempts (events_since s2 s3) = 1%nat)).
Proof.
  intros Rs R Hn Wa Cc Co L failed.
  pose proof (reachable_timer_ok Rs) as TO. unfold timer_ok in TO.
  rewrite R in TO.
  split.
  { destruct (@loop_attempts _ _ _ _ L) as [_ ->].
    now rewrite Hn, Wa, R, Cc. }
  assert (W1 : wait_state failed 1000 s1).
  { unfold loop in L.
    set (sw := loop_wifi e0 (advance (idle e0) s0)) in *.
    assert (Sw : retry sw = true /\ timer sw = [] /\
                 clock sw = clock s0 + Z.of_N (idle e0)
                            + (if wifi_before e0 then 0
                               else Z.of_N (reconnect_took e0))).
    { unfold sw, loop_wifi. cbn [advance set_clock retry].
      rewrite R, andb_true_r.
      destruct (wifi_before e0); cbn [negb orb] in *.
      - cbn. repeat split; try assumption. lia.
      - rewrite Hn. cbn. repeat split; assumption. }
    destruct Sw as (Rw & Tw & Cw).
    unfold loop_mqtt in L. rewrite Wa, Rw, setup_mqtt_eq, Cc, Co in L.
    cbv zeta in L. cbn [andb] in L. injection L as <-.
    apply finish_pass_waiting.
    - reflexivity.
    - cbn. rewrite Tw. unfold failed. rewrite <- Cw. reflexivity. }
  intros es s2 Rn.
  pose proof (run_steps _ _ Rn) as St.
  destruct (steps_stamps St) as (C12 & new & Tr & Fs).
  rewrite (@events_since_app _ _ _ Tr).
  split.
  - intros t a ok I.
    destruct W1 as [(Lt & R1 & T1)|(Ge & _)].
    + destruct (backoff_holds R1 T1 St) as (_ & (new' & Tr' & Fa) & _).
      assert (E : new' = new).
      { apply (app_inv_head (trace s1)). now rewrite <- Tr, <- Tr'. }
      subst new'. rewrite Forall_forall in Fa.
      destruct (Fa _ I) as [P|G]; [discriminate P | exact G].
    + rewrite Forall_forall in Fs. specialize (Fs _ I). cbn in Fs. lia.
  - intros Cn Wn.
    pose proof (@run_wait failed 1000 es s1 s2 new W1 Rn Tr Cn Wn) as W2.
    split.
    + destruct W2 as [(Lt & R2 & _)|(Ge & R2 & _)]; rewrite R2; split;
        try discriminate; try lia; auto.
    + intros Ge e s3 He Wae Cce Le.
      destruct W2 as [(Lt & _)|(_ & R2 & _)]; [lia|].
      destruct (@loop_attempts _ _ _ _ Le) as [_ ->].
      now rewrite He, Wae, R2, Cce.
Qed.

End MoreFacts.

(** * The further properties at concrete inputs *)

(** X3 at the buffer [00 1F AB] and the size -3. *)
Lemma convertToHex_prefix_witness :
  convertToHex ([x00; x1f] ++ [xab]) (-3) = Some EmptyString /\
  convertToHex ([x00; x1f] ++ [xab]) 3 = Some "001FAB".
Proof.
  destruct (@convertToHex_prefix [x00; x1f] [xab] (-3)) as (A & _ & sa & sb & Ea & Eb & E).
  - discriminate.
  - split; [exact A|]. transitivity (Some (sa ++ sb)%string); [exact E|].
    vm_compute in Ea, Eb. injection Ea as <-. injection Eb as <-. reflexivity.
Defined.

(** X4 at the sample codes. *)
Lemma toTopicString_table_witness :
  toTopicString (hdrs := example_headers) x11 = "portal" /\
  toTopicString (hdrs := example_headers) x14 = "gps".
Proof.
  destruct (@toTopicString_table example_headers) as (_ & A & _ & _ & B & _).
  - repeat (constructor; [simpl; intuition discriminate|]). constructor.
  - split; [exact A | exact B].
Defined.

(** X5 at three frames of which the second is published at once. *)
Lemma duck_run_keeps_latest_failures_witness :
  packetQueue (duck_run (hdrs := example_headers) mixed_batch initial_state)
  = [[x01]; [x03]].
Proof.
  etransitivity.
  - apply (@duck_run_keeps_latest_failures example_headers mixed_batch
             initial_state).
    + split; [discriminate | reflexivity].
    + apply configured_bounded.
  - reflexivity.
Defined.

(** X6 at the bound -1 and seven frames. *)
Lemma negative_bound_never_evicts_witness :
  packetQueue
    (duck_run (hdrs := example_headers) (failing (six_frames ++ [[x07]]))
       (configured (-1)))
  = six_frames ++ [[x07]].
Proof.
  etransitivity.
  - apply (@negative_bound_never_evicts example_headers
             (failing (six_frames ++ [[x07]])) (configured (-1))).
    + split; [discriminate | reflexivity].
    + discriminate.
  - reflexivity.
Defined.

(** X8 in the state that a failed reconnect leaves. *)
Lemma retry_and_timer_agree_witness :
  (length (timer (loop_wifi (hdrs := example_headers) tick_wifi_fails
                    initial_state)) <= 1)%nat.
Proof.
  apply (@retry_and_timer_agree example_headers 5).
  apply steps_one, step_wifi.
Defined.

(** X9: ten milliseconds after a failed reconnect the wait is on. *)
Lemma wifi_backoff_witness :
  exists s2,
    loop (hdrs := example_headers) tick_network_up
      (loop_wifi (hdrs := example_headers) tick_wifi_fails initial_state)
    = Some s2 /\
    retry s2 = false.
Proof.
  eexists. split; [reflexivity|].
  assert (N : reconnect_err tick_wifi_fails <> DUCK_ERR_NONE (Headers := example_headers))
    by discriminate.
  match goal with |- retry ?s2 = false =>
    destruct (@wifi_backoff example_headers 5 initial_state tick_wifi_fails
                (steps_refl _) eq_refl eq_refl N s2) as (_ & W)
  end.
  - apply (@loop_steps example_headers tick_network_up). reflexivity.
  - apply W. reflexivity.
Defined.

(** X10: the pass that starts 5000 ms after a failed reconnect ends the
    wait. *)
Lemma pass_during_wait_witness :
  exists s',
    loop (hdrs := example_headers) tick_network_still_gone
      (loop_wifi (hdrs := example_headers) tick_wifi_fails initial_state)
    = Some s' /\
    retry s' = true /\ timer s' = [].
Proof.
  eexists. split; [reflexivity|].
  match goal with |- retry ?s' = true /\ _ =>
    destruct (@pass_during_wait example_headers tick_network_still_gone
                (loop_wifi (hdrs := example_headers) tick_wifi_fails
                   initial_state)
                s' 0 5000 eq_refl eq_refl eq_refl) as (_ & _ & _ & F & _)
  end.
  apply F. discriminate.
Defined.

(** X11 at the three frames of which two stayed queued. *)
Lemma queued_frames_are_republished_in_order_witness :
  exists s2,
    setup_mqtt (hdrs := example_headers) mqtt_connected_ok true
      (duck_run (hdrs := example_headers) mixed_batch initial_state)
    = Some s2 /\
    packetQueue s2 = [] /\
    length (events_since
              (duck_run (hdrs := example_headers) mixed_batch initial_state) s2)
    = 2%nat.
Proof.
  destruct (@queued_frames_are_republished_in_order example_headers
              mixed_batch initial_state mqtt_connected_ok true)
    as (s2 & E & Q & Ev).
  - split; [discriminate | reflexivity].
  - apply configured_bounded.
  - reflexivity.
  - reflexivity.
  - exists s2. split; [exact E|]. split; [exact Q|]. rewrite Ev. reflexivity.
Defined.

(** X12 at the pass that finds the network down and rejoins it. *)
Lemma one_attempt_per_pass_witness :
  exists s',
    loop (hdrs := example_headers) tick_network_back initial_state = Some s' /\
    (wifi_attempts (events_since initial_state s') <= 1)%nat /\
    (connect_attempts (events_since initial_state s') <= 1)%nat.
Proof.
  eexists. split; [reflexivity|].
  match goal with |- (wifi_attempts (events_since _ ?s') <= _)%nat /\ _ =>
    destruct (@one_attempt_per_pass example_headers tick_network_back
                initial_state s' eq_refl) as (A & B & _)
  end.
  split; [exact A | exact B].
Defined.

(** X13: three frames are queued when a reconnect fails; the pass five
    seconds later ends the wait and the pass after it delivers them. *)
Lemma recovery_after_wait_witness :
  exists s2,
    loop (hdrs := example_headers) tick_network_still_gone waiting_with_three
    = Some wait_over /\
    loop (hdrs := example_headers) tick_network_up wait_over = Some s2 /\
    packetQueue s2 = [] /\ retry s2 = true.
Proof.
  destruct (@loop_returns example_headers tick_network_up wait_over)
    as [s2 L2].
  exists s2. split; [reflexivity|]. split; [exact L2|].
  destruct (@recovery_after_wait example_headers
              tick_network_still_gone tick_network_up
              waiting_with_three wait_over s2 0 5000) as (Q & R & _).
  - reflexivity.
  - reflexivity.
  - reflexivity.
  - vm_compute. discriminate.
  - reflexivity.
  - reflexivity.
  - reflexivity.
  - reflexivity.
  - intros j. reflexivity.
  - reflexivity.
  - exact L2.
  - split; [exact Q | exact R].
Defined.

(** C5: the broker refuses at time 0; the pass that ends at time 1000
    sets [retry] again, and the pass after it, which finds the network up,
    makes one connect call. *)
Lemma mqtt_backoff_witness :
  exists s1 s2 s3,
    loop (hdrs := example_headers) tick_mqtt_fails initial_state = Some s1 /\
    run (hdrs := example_headers) [tick_network_gone] s1 = Some s2 /\
    loop (hdrs := example_headers) tick_network_up s2 = Some s3 /\
    retry s1 = false /\ retry s2 = true /\
    connect_attempts (events_since s2 s3) = 1%nat.
Proof.
  destruct (@loop_returns example_headers tick_mqtt_fails initial_state)
    as [s1 L1].
  destruct (@run_returns example_headers [tick_network_gone] s1) as [s2 L2].
  destruct (@loop_returns example_headers tick_network_up s2) as [s3 L3].
  exists s1, s2, s3.
  split; [exact L1|]. split; [exact L2|]. split; [exact L3|].
  destruct (@mqtt_backoff example_headers 5 initial_state s1 tick_mqtt_fails
              (steps_refl _) eq_refl eq_refl eq_refl eq_refl eq_refl L1)
    as (_ & F).
  assert (E1 : s1 = {| QUEUE_SIZE_MAX := 5; use_auth_method := true;
                       packetQueue := []; retry := false;
                       timer := [mkTask 0 1000]; clock := 0;
                       trace := [(0, MqttConnect true false)] |}).
  { vm_compute in L1. now injection L1. }
  assert (E2 : s2 = {| QUEUE_SIZE_MAX := 5; use_auth_method := true;
                       packetQueue := []; retry := true;
                       timer := []; clock := 1000;
                       trace := [(0, MqttConnect true false)] |}).
  { rewrite E1 in L2. vm_compute in L2. now injection L2. }
  destruct (F [tick_network_gone] s2 L2) as (_ & G).
  destruct G as (I & N).
  - rewrite E1, E2. reflexivity.
  - rewrite E1, E2. reflexivity.
  - split; [rewrite E1; reflexivity|]. split; [rewrite E2; reflexivity|].
    apply (N (proj1 I (eq_trans (f_equal retry E2) eq_refl)) tick_network_up s3);
      try reflexivity. exact L3.
Defined.
